(** * Verification of the AwoX mesh light protocol engine

    Shallow embedding of [awoxmeshlight/packetutils.py],
    [awoxmeshlight/__init__.py] (class [AwoxMeshLight]) and
    [awox_mesh.py] (class [AwoxMesh]).  Python bytes are lists of [Z]
    (each element a byte, 0..255); Python exceptions are the [Raise]
    branch of the [result] type. *)

From Stdlib Require Import String Ascii ZArith List Bool Lia Sorting.Sorted
  Sorting.Permutation.
Import ListNotations.
Open Scope Z_scope.

(** ** Python exceptions and the error monad *)

Inductive exn :=
| AssertionError
| ValueError
| KeyError
| IndexError
| StructError
| AttributeError.

Inductive result (A : Type) :=
| Ok (a : A)
| Raise (e : exn).
Arguments Ok {A} a.
Arguments Raise {A} e.

Definition bind {A B} (m : result A) (k : A -> result B) : result B :=
  match m with
  | Ok a => k a
  | Raise e => Raise e
  end.

Notation "x <- m ;; k" := (bind m (fun x => k))
  (at level 61, m at next level, right associativity).

(** ** Byte-string helpers (Python [bytes] / [bytearray]) *)

Definition bytes := list Z.

(** [b.ljust(n, b'\x00')]: pads, never truncates. *)
Definition ljust (n : nat) (b : bytes) : bytes :=
  b ++ repeat 0 (n - length b).

(** [b[i:j]] for [0 <= i <= j]. *)
Definition slice (i j : nat) (b : bytes) : bytes :=
  firstn (j - i) (skipn i b).

(** [bytearray([a ^ b for (a, b) in zip(x, y)])]: truncates to the
    shorter argument. *)
Fixpoint xor_bytes (x y : bytes) : bytes :=
  match x, y with
  | a :: x', b :: y' => Z.lxor a b :: xor_bytes x' y'
  | _, _ => []
  end.

Fixpoint bytes_eqb (x y : bytes) : bool :=
  match x, y with
  | [], [] => true
  | a :: x', b :: y' => (a =? b) && bytes_eqb x' y'
  | _, _ => false
  end.

(** [range(0, len(b), 16)] slices [b[i:i+16]]; the fuel is the length. *)
Fixpoint chunks_fuel (fuel : nat) (b : bytes) : list bytes :=
  match fuel with
  | O => []
  | S f =>
      match b with
      | [] => []
      | _ => firstn 16 b :: chunks_fuel f (skipn 16 b)
      end
  end.

Definition chunks16 (b : bytes) : list bytes := chunks_fuel (length b) b.

(** ** AES-128 (FIPS-197), the block cipher behind [AES.new(k, MODE_ECB)] *)

Module AES.

Definition xtime (b : Z) : Z :=
  if b <? 128 then 2 * b else Z.lxor (2 * b) 283.

(** Multiplication in GF(2^8). *)
Fixpoint gmul_aux (n : nat) (a b acc : Z) : Z :=
  match n with
  | O => acc
  | S n' =>
      let acc' := if Z.testbit b 0 then Z.lxor acc a else acc in
      gmul_aux n' (xtime a) (Z.shiftr b 1) acc'
  end.

Definition gmul (a b : Z) : Z := gmul_aux 8 a b 0.

Fixpoint gpow (a : Z) (n : nat) : Z :=
  match n with
  | O => 1
  | S n' => gmul a (gpow a n')
  end.

Definition rotl8 (b : Z) (k : Z) : Z :=
  Z.land (Z.lor (Z.shiftl b k) (Z.shiftr b (8 - k))) 255.

Definition sbox_calc (x : Z) : Z :=
  let b := gpow x 254 in
  Z.lxor (Z.lxor (Z.lxor b (rotl8 b 1)) (Z.lxor (rotl8 b 2) (rotl8 b 3)))
         (Z.lxor (rotl8 b 4) 99).

Definition sbox_table : list Z :=
  Eval vm_compute in map (fun n => sbox_calc (Z.of_nat n)) (seq 0 256).

Definition sbox (x : Z) : Z := nth (Z.to_nat x) sbox_table 0.

Definition sub_bytes (s : bytes) : bytes := map sbox s.

(** The state is the 16 input bytes in FIPS order: byte [r + 4c] is row
    [r], column [c]. *)
Definition shift_rows (s : bytes) : bytes :=
  map (fun i => let r := (i mod 4)%nat in let c := (i / 4)%nat in
                nth (r + 4 * ((c + r) mod 4)) s 0)
      (seq 0 16).

Definition mix_column (c : bytes) : bytes :=
  match c with
  | [a0; a1; a2; a3] =>
      [Z.lxor (Z.lxor (gmul 2 a0) (gmul 3 a1)) (Z.lxor a2 a3);
       Z.lxor (Z.lxor a0 (gmul 2 a1)) (Z.lxor (gmul 3 a2) a3);
       Z.lxor (Z.lxor a0 a1) (Z.lxor (gmul 2 a2) (gmul 3 a3));
       Z.lxor (Z.lxor (gmul 3 a0) a1) (Z.lxor a2 (gmul 2 a3))]
  | _ => c
  end.

Definition mix_columns (s : bytes) : bytes :=
  mix_column (slice 0 4 s) ++ mix_column (slice 4 8 s)
  ++ mix_column (slice 8 12 s) ++ mix_column (slice 12 16 s).

Definition add_round_key (s k : bytes) : bytes := xor_bytes s k.

Definition rcon : list Z := [1; 2; 4; 8; 16; 32; 64; 128; 27; 54].

(** One step of the key schedule: round key [r] to round key [r+1]. *)
Definition next_round_key (rc : Z) (k : bytes) : bytes :=
  let w0 := slice 0 4 k in
  let w1 := slice 4 8 k in
  let w2 := slice 8 12 k in
  let w3 := slice 12 16 k in
  let t := match w3 with
           | [b0; b1; b2; b3] => [Z.lxor (sbox b1) rc; sbox b2; sbox b3; sbox b0]
           | _ => w3
           end in
  let w0' := xor_bytes w0 t in
  let w1' := xor_bytes w1 w0' in
  let w2' := xor_bytes w2 w1' in
  let w3' := xor_bytes w3 w2' in
  w0' ++ w1' ++ w2' ++ w3'.

Fixpoint round_keys (rcs : list Z) (k : bytes) : list bytes :=
  match rcs with
  | [] => [k]
  | rc :: rcs' => k :: round_keys rcs' (next_round_key rc k)
  end.

Fixpoint rounds (ks : list bytes) (s : bytes) : bytes :=
  match ks with
  | [] => s
  | [k] => add_round_key (shift_rows (sub_bytes s)) k
  | k :: ks' => rounds ks' (add_round_key (mix_columns (shift_rows (sub_bytes s))) k)
  end.

(** Encryption of one 16-byte block under a 16-byte key. *)
Definition encrypt_block (key block : bytes) : bytes :=
  match round_keys rcon key with
  | k0 :: ks => rounds ks (add_round_key block k0)
  | [] => block
  end.

End AES.

(** ** packetutils.py *)

Module Packet.

(** [encrypt]: asserts a 16-byte key, pads the value to 16 bytes, and
    encrypts the byte-reversed value under the byte-reversed key with
    AES-ECB (which rejects data that is not a whole number of blocks),
    reversing the result. *)
Definition ecb_encrypt (k data : bytes) : result bytes :=
  if (length data mod 16 =? 0)%nat
  then Ok (concat (map (AES.encrypt_block k) (chunks16 data)))
  else Raise ValueError.

Definition encrypt (key value : bytes) : result bytes :=
  match key with
  | [] => Raise AssertionError
  | _ =>
      if negb (length key =? 16)%nat then Raise AssertionError
      else
        let k := rev key in
        let val := rev (ljust 16 value) in
        val' <- ecb_encrypt k val ;;
        Ok (rev val')
  end.

(** [bytearray([n])]: a byte value out of range raises [ValueError]. *)
Definition byte_of_int (n : Z) : result Z :=
  if (0 <=? n) && (n <=? 255) then Ok n else Raise ValueError.

Fixpoint checksum_loop (key check : bytes) (cs : list bytes) : result bytes :=
  match cs with
  | [] => Ok check
  | c :: cs' =>
      let check_payload := ljust 16 c in
      check' <- encrypt key (xor_bytes check check_payload) ;;
      checksum_loop key check' cs'
  end.

Definition make_checksum (key nonce payload : bytes) : result bytes :=
  lenb <- byte_of_int (Z.of_nat (length payload)) ;;
  let base := ljust 16 (nonce ++ [lenb]) in
  check <- encrypt key base ;;
  checksum_loop key check (chunks16 payload).

(** [base[0] += 1] on a bytearray: overflow past 255 raises [ValueError]. *)
Definition incr_first (base : bytes) : result bytes :=
  match base with
  | [] => Raise IndexError
  | b :: t => if b + 1 <=? 255 then Ok ((b + 1) :: t) else Raise ValueError
  end.

Fixpoint crypt_loop (key base : bytes) (cs : list bytes) : result bytes :=
  match cs with
  | [] => Ok []
  | c :: cs' =>
      enc_base <- encrypt key base ;;
      let r := xor_bytes enc_base c in
      base' <- incr_first base ;;
      rest <- crypt_loop key base' cs' ;;
      Ok (r ++ rest)
  end.

Definition crypt_payload (key nonce payload : bytes) : result bytes :=
  let base := ljust 16 (0 :: nonce) in
  crypt_loop key base (chunks16 payload).

(** [bytearray.fromhex]: pairs of hex digits, ASCII whitespace skipped
    between pairs, anything else raises [ValueError]. *)
Definition hex_digit (c : ascii) : option Z :=
  let n := Z.of_nat (nat_of_ascii c) in
  if (48 <=? n) && (n <=? 57) then Some (n - 48)
  else if (65 <=? n) && (n <=? 70) then Some (n - 55)
  else if (97 <=? n) && (n <=? 102) then Some (n - 87)
  else None.

Definition is_space (c : ascii) : bool :=
  let n := nat_of_ascii c in
  ((n =? 32) || ((9 <=? n) && (n <=? 13)))%nat.

Fixpoint fromhex (s : string) : result bytes :=
  match s with
  | EmptyString => Ok []
  | String c s' =>
      if is_space c then fromhex s'
      else
        match s' with
        | EmptyString => Raise ValueError
        | String c2 s'' =>
            match hex_digit c, hex_digit c2 with
            | Some h, Some l => r <- fromhex s'' ;; Ok (16 * h + l :: r)
            | _, _ => Raise ValueError
            end
        end
  end.

(** [address.replace(":", "")] *)
Fixpoint remove_colons (s : string) : string :=
  match s with
  | EmptyString => EmptyString
  | String c s' =>
      if Ascii.eqb c ":"%char then remove_colons s' else String c (remove_colons s')
  end.

(** [struct.pack("<H", v)] and [struct.pack("B", v)] *)
Definition pack_u16_le (v : Z) : result bytes :=
  if (0 <=? v) && (v <=? 65535) then Ok [v mod 256; v / 256] else Raise StructError.

Definition pack_u8 (v : Z) : result bytes :=
  if (0 <=? v) && (v <=? 255) then Ok [v] else Raise StructError.

(** [make_command_packet]; [s] is the 3-byte sequence drawn by [urandom(3)]. *)
Definition make_command_packet (key : bytes) (address : string) (dest_id command : Z)
    (data s : bytes) : result bytes :=
  a <- fromhex (remove_colons address) ;;
  let a := rev a in
  let nonce := firstn 4 a ++ [1] ++ s in
  dest <- pack_u16_le dest_id ;;
  cmd <- pack_u8 command ;;
  let payload := ljust 15 (dest ++ cmd ++ [96; 1] ++ data) in
  check <- make_checksum key nonce payload ;;
  payload <- crypt_payload key nonce payload ;;
  Ok (s ++ firstn 2 check ++ payload).

(** [decrypt_packet]: [Ok None] is Python's [None] (checksum mismatch). *)
Definition decrypt_packet (key : bytes) (address : string) (packet : bytes)
    : result (option bytes) :=
  a <- fromhex (remove_colons address) ;;
  let a := rev a in
  let nonce := firstn 3 a ++ firstn 5 packet in
  payload <- crypt_payload key nonce (skipn 7 packet) ;;
  check <- make_checksum key nonce payload ;;
  if negb (bytes_eqb (firstn 2 check) (slice 5 7 packet)) then Ok None
  else Ok (Some (firstn 7 packet ++ payload)).

Definition make_pair_packet (mesh_name mesh_password session_random : bytes)
    : result bytes :=
  let m_n := ljust 16 mesh_name in
  let m_p := ljust 16 mesh_password in
  let s_r := ljust 16 session_random in
  let name_pass := xor_bytes m_n m_p in
  enc <- encrypt s_r name_pass ;;
  Ok ([12] ++ session_random ++ firstn 8 enc).

Definition make_session_key (mesh_name mesh_password session_random response_random : bytes)
    : result bytes :=
  let random := session_random ++ response_random in
  let m_n := ljust 16 mesh_name in
  let m_p := ljust 16 mesh_password in
  let name_pass := xor_bytes m_n m_p in
  encrypt name_pass random.

(** [crc16]: the inner [for i in range(0, 8)] step on [(crc, val)]. *)
Definition crc16_bit (cv : Z * Z) : Z * Z :=
  let '(crc, val) := cv in
  let ind := Z.land (Z.lxor crc val) 1 in
  (Z.lxor (Z.shiftr crc 1) (nth (Z.to_nat ind) [0; 40961] 0), Z.shiftr val 1).

(** One byte of the outer loop. *)
Definition crc16_byte (crc val : Z) : Z := fst (Nat.iter 8 crc16_bit (crc, val)).

Definition crc16 (array : bytes) : Z := fold_left crc16_byte array 65535.

End Packet.

(** ** awoxmeshlight/__init__.py: [AwoxMeshLight] *)

Module Light.

(** The transport calls [connect] makes, each of which may raise. *)
Record transport := {
  t_connect : result unit;          (* btdevice.connect(mac) *)
  t_write_pair : result unit;       (* pair_char.write(message) *)
  t_write_status : result unit;     (* status_char.write(b'\x01') *)
  t_read_pair : result bytes;       (* pair_char.read() *)
  t_disconnect : result unit        (* btdevice.disconnect() *)
}.

Record light := {
  mac : string;
  mesh_id : Z;
  session_key : option bytes;
  mesh_name : bytes;
  mesh_password : bytes;
  session_random : option bytes
}.

Definition set_session_key (k : option bytes) (l : light) : light :=
  {| mac := mac l; mesh_id := mesh_id l; session_key := k;
     mesh_name := mesh_name l; mesh_password := mesh_password l;
     session_random := session_random l |}.

Definition set_session_random (r : bytes) (l : light) : light :=
  {| mac := mac l; mesh_id := mesh_id l; session_key := session_key l;
     mesh_name := mesh_name l; mesh_password := mesh_password l;
     session_random := Some r |}.

(** Observable effects, in order.  [ReleaseTransport k] is the call to
    [btdevice.disconnect()], with [k] the session key held at that moment. *)
Inductive event :=
| ReleaseTransport (key_at_release : option bytes)
| PairWritten (message : bytes)
| StatusNotifyEnabled.

(** [disconnect]: [btdevice.disconnect()] inside [try/except Exception],
    then [self.session_key = None]. *)
Definition disconnect (t : transport) (l : light) : result (light * list event) :=
  let tr := [ReleaseTransport (session_key l)] in
  match t_disconnect t with
  | Ok _ => Ok (set_session_key None l, tr)
  | Raise _ => (* logger.warning('Disconnect failed') *) Ok (set_session_key None l, tr)
  end.

(** [reply[0]] on a bytearray. *)
Definition index0 (b : bytes) : result Z :=
  match b with
  | [] => Raise IndexError
  | x :: _ => Ok x
  end.

(** [connect] with its default arguments; [sr] is [urandom(8)].  Returns
    the Python return value, the new object state and the effects. *)
Definition connect (t : transport) (sr : bytes) (l : light)
    : result (bool * light * list event) :=
  if negb (length (mesh_name l) <=? 16)%nat then Raise AssertionError else
  if negb (length (mesh_password l) <=? 16)%nat then Raise AssertionError else
  _ <- t_connect t ;;
  let l := set_session_random sr l in
  message <- Packet.make_pair_packet (mesh_name l) (mesh_password l) sr ;;
  _ <- t_write_pair t ;;
  _ <- t_write_status t ;;
  reply <- t_read_pair t ;;
  r0 <- index0 reply ;;
  let tr := [PairWritten message; StatusNotifyEnabled] in
  if r0 =? 13 then
    key <- Packet.make_session_key (mesh_name l) (mesh_password l) sr (slice 1 9 reply) ;;
    Ok (true, set_session_key (Some key) l, tr)
  else
    dl <- disconnect t l ;;
    let '(l', tr') := dl in
    Ok (false, l', tr ++ tr').

(** A Python value, as found in the status dictionaries. *)
Inductive pyval :=
| VInt (z : Z)
| VBool (b : bool)
| VStr (s : string)
| VNone.

Definition pydict := list (string * pyval).

Fixpoint dict_get (k : string) (d : pydict) : option pyval :=
  match d with
  | [] => None
  | (k', v) :: d' => if String.eqb k k' then Some v else dict_get k d'
  end.

(** [struct.unpack('B', data[i:i+1])[0]]: a short slice is a struct error. *)
Definition byte_at (i : nat) (data : bytes) : result Z :=
  match nth_error data i with
  | Some b => Ok b
  | None => Raise StructError
  end.

Definition mode_bit (mode : Z) (n : Z) : bool := Z.land (Z.shiftr mode n) 1 =? 1.

Definition status_dict (mesh_id mode wb wt cb r g b : Z) : pydict :=
  [("mesh_id", VInt mesh_id);
   ("state", VBool (mode_bit mode 0));
   ("color_mode", VBool (mode_bit mode 1));
   ("transition_mode", VBool (mode_bit mode 2));
   ("red", VInt r); ("green", VInt g); ("blue", VInt b);
   ("white_temperature", VInt wt);
   ("white_brightness", VInt wb);
   ("color_brightness", VInt cb)]%string.

(** The status dictionary [parseStatusResult] builds and passes to
    [status_callback]; [None] is the empty dict (unknown command).  The
    copy of a matching status into the light's own fields is not
    modelled. *)
Definition parse_status (data : bytes) : result (option pydict) :=
  command <- byte_at 7 data ;;
  if command =? 219 then
    mode <- byte_at 10 data ;;
    hi <- byte_at 4 data ;; lo <- byte_at 3 data ;;
    wb <- byte_at 11 data ;; wt <- byte_at 12 data ;;
    cb <- byte_at 13 data ;; r <- byte_at 14 data ;;
    g <- byte_at 15 data ;; b <- byte_at 16 data ;;
    Ok (Some (status_dict (hi * 256 + lo) mode wb wt cb r g b))
  else if command =? 220 then
    hi <- byte_at 19 data ;; lo <- byte_at 10 data ;;
    mode <- byte_at 12 data ;;
    wb <- byte_at 13 data ;; wt <- byte_at 14 data ;;
    cb <- byte_at 15 data ;; r <- byte_at 16 data ;;
    g <- byte_at 17 data ;; b <- byte_at 18 data ;;
    Ok (Some (status_dict (hi * 256 + lo) mode wb wt cb r g b))
  else Ok None.

End Light.

(** ** awox_mesh.py: [AwoxMesh] *)

Module Mesh.

Import Light.

(** One value of [self._devices]; [callback] is the identity of the
    registered callback function. *)
Record device_info := {
  dmac : option string;
  name : string;
  callback : Z;
  last_update : option Z;
  update_count : Z;
  status_request_count : Z;
  rssi : Z
}.

(** [self._devices]: a dict keyed by mesh id, in insertion order. *)
Definition directory := list (Z * device_info).

Fixpoint dir_get (k : Z) (d : directory) : option device_info :=
  match d with
  | [] => None
  | (k', v) :: d' => if k =? k' then Some v else dir_get k d'
  end.

(** [self._devices[k] = v] on an existing key keeps its position. *)
Fixpoint dir_set (k : Z) (v : device_info) (d : directory) : directory :=
  match d with
  | [] => [(k, v)]
  | (k', v') :: d' => if k =? k' then (k', v) :: d' else (k', v') :: dir_set k v d'
  end.

Definition register_device (mesh_id : Z) (mac : string) (nm : string) (cb : Z)
    (d : directory) : directory :=
  dir_set mesh_id {| dmac := Some mac; name := nm; callback := cb;
                     last_update := None; update_count := 0;
                     status_request_count := 0; rssi := -999999 |} d.

Definition with_update (lu : option Z) (uc : Z) (i : device_info) : device_info :=
  {| dmac := dmac i; name := name i; callback := callback i;
     last_update := lu; update_count := uc;
     status_request_count := status_request_count i; rssi := rssi i |}.

(** The mesh state: the directory and the calls made to the registered
    callbacks, oldest first. *)
Record mesh := {
  devices : directory;
  cb_log : list (Z * pydict)
}.

(** [mesh_status_callback(status)]; [now] is [dt_util.now()]. *)
Definition mesh_status_callback (now : Z) (status : pydict) (m : mesh) : result mesh :=
  match dict_get "mesh_id"%string status with
  | None => Ok m
  | Some mid =>
      let found := match mid with
                   | VInt k => match dir_get k (devices m) with
                               | Some i => Some (k, i)
                               | None => None
                               end
                   | _ => None
                   end in
      match found with
      | None => Ok m
      | Some (k, i) =>
          match dict_get "type"%string status with
          | None => Raise KeyError
          | Some ty =>
              if match ty with VStr t => negb (String.eqb t "status"%string) | _ => true end
              then Ok m
              else
                let log := cb_log m ++ [(callback i, status)] in
                let i' := with_update (Some now) (update_count i + 1) i in
                Ok {| devices := dir_set k i' (devices m); cb_log := log |}
          end
      end
  end.

(** A decoded frame handed to the connected light's [parseStatusResult],
    whose [status_callback] is [mesh_status_callback]. *)
Definition on_decoded_frame (now : Z) (data : bytes) (m : mesh) : result mesh :=
  st <- parse_status data ;;
  match st with
  | None => Ok m
  | Some status => mesh_status_callback now status m
  end.

Definition state_none : pydict := [("state", VNone)]%string.

Fixpoint disable_all (d : directory) (log : list (Z * pydict)) : directory * list (Z * pydict) :=
  match d with
  | [] => ([], log)
  | (k, i) :: d' =>
      match last_update i with
      | Some _ =>
          let '(d'', log') := disable_all d' (log ++ [(callback i, state_none)]) in
          ((k, with_update None 0 i) :: d'', log')
      | None =>
          let '(d'', log') := disable_all d' log in
          ((k, i) :: d'', log')
      end
  end.

(** [update_status_of_all_devices_to_disabled] *)
Definition update_status_of_all_devices_to_disabled (m : mesh) : mesh :=
  let '(d, log) := disable_all (devices m) (cb_log m) in
  {| devices := d; cb_log := log |}.

(** [sorted(..., key=rssi, reverse=True)]: Python's sort is stable, and
    [reverse=True] keeps equal keys in their original order.  Insertion
    places an element after every element whose key is not smaller. *)
Fixpoint insert_desc (x : Z * device_info) (l : directory) : directory :=
  match l with
  | [] => [x]
  | y :: l' => if rssi (snd y) <? rssi (snd x) then x :: y :: l' else y :: insert_desc x l'
  end.

Definition sort_by_rssi_desc (d : directory) : directory :=
  fold_left (fun acc x => insert_desc x acc) d [].

Definition rssi_floor : Z := -9999.

(** [_getConnectableDevices] *)
Definition get_connectable_devices (d : directory) : directory :=
  filter (fun e => rssi_floor <? rssi (snd e)) (sort_by_rssi_desc d).

(** [is_connected()]: [self._connected_bluetooth_device and
    self._connected_bluetooth_device.isconnected]; [connected] tells
    whether a device is set.  [AwoxMeshLight] defines no [isconnected]
    attribute, so on a set device the read raises [AttributeError]; with
    no device the expression is [None], which is falsy. *)
Definition is_connected (connected : bool) : result bool :=
  if connected then Raise AttributeError else Ok false.

(** Calls [_async_connect_device] makes on the [AwoxMeshLight] objects it
    creates, by mesh id. *)
Inductive conn_event :=
| TryConnect (k : Z)          (* device.connect *)
| StopDevice (k : Z)          (* device.stop, which swallows its errors *)
| SetStatusCallback (k : Z).  (* .status_callback = self.mesh_status_callback *)

(** The part of the [AwoxMesh] state [_async_connect_device] reads and
    writes: the mesh id of [self._connected_bluetooth_device],
    [self._state['connected_device']], [self._state['last_connection']],
    [self._state['last_rssi_check']], and the calls above, oldest first. *)
Record conn_state := {
  cs_connected : option Z;
  cs_connected_device : option string;
  cs_last_connection : option Z;
  cs_last_rssi_check : option Z;
  cs_log : list conn_event
}.

Definition device_set (c : option Z) : bool :=
  match c with Some _ => true | None => false end.

Definition log_event (e : conn_event) (s : conn_state) : conn_state :=
  {| cs_connected := cs_connected s; cs_connected_device := cs_connected_device s;
     cs_last_connection := cs_last_connection s; cs_last_rssi_check := cs_last_rssi_check s;
     cs_log := cs_log s ++ [e] |}.

(** The three assignments after a successful [device.connect]. *)
Definition connected_to (k : Z) (nm : string) (now : Z) (s : conn_state) : conn_state :=
  {| cs_connected := Some k; cs_connected_device := Some nm;
     cs_last_connection := Some now; cs_last_rssi_check := cs_last_rssi_check s;
     cs_log := cs_log s |}.

Definition with_connected_device (v : option string) (s : conn_state) : conn_state :=
  {| cs_connected := cs_connected s; cs_connected_device := v;
     cs_last_connection := cs_last_connection s; cs_last_rssi_check := cs_last_rssi_check s;
     cs_log := cs_log s |}.

Definition with_last_rssi_check (v : option Z) (s : conn_state) : conn_state :=
  {| cs_connected := cs_connected s; cs_connected_device := cs_connected_device s;
     cs_last_connection := cs_last_connection s; cs_last_rssi_check := v;
     cs_log := cs_log s |}.

(** [_async_update_mesh_state]; the coordinator listeners it then calls
    only refresh the entities (a no-op for switches, a state write for
    lights) and are not modelled. *)
Definition update_mesh_state (s : conn_state) : result conn_state :=
  c <- is_connected (device_set (cs_connected s)) ;;
  Ok (if c then s else with_connected_device None s).

(** The [for] loop of [_async_connect_device] over the candidates.
    [try_connect k] is whether [device.connect] returned true within the
    20 s timeout: a False return, an exception or the timeout are all
    caught by [except Exception].  After a successful connect the awaited
    [_async_update_mesh_state()] reads [is_connected()]; if that returned,
    [break] would end the loop, otherwise the exception is caught too and
    the loop stops the device and goes on. *)
Fixpoint connect_loop (now : Z) (try_connect : Z -> bool) (c : directory)
    (s : conn_state) : conn_state :=
  match c with
  | [] => s
  | (k, i) :: c' =>
      match dmac i with
      | None => connect_loop now try_connect c' s
      | Some _ =>
          let s1 := log_event (TryConnect k) s in
          if try_connect k then
            let s2 := connected_to k (name i) now s1 in
            match update_mesh_state s2 with
            | Ok s3 => s3
            | Raise _ => connect_loop now try_connect c' (log_event (StopDevice k) s2)
            end
          else connect_loop now try_connect c' (log_event (StopDevice k) s1)
      end
  end.

(** [_async_connect_device]; [now] is [dt_util.now()]. *)
Definition async_connect_device (now : Z) (try_connect : Z -> bool) (d : directory)
    (s : conn_state) : result conn_state :=
  c <- is_connected (device_set (cs_connected s)) ;;
  if c then Ok s
  else
    let s1 := connect_loop now try_connect (get_connectable_devices d) s in
    match cs_connected s1 with
    | Some k => Ok (log_event (SetStatusCallback k) s1)
    | None => update_mesh_state (with_last_rssi_check None s1)
    end.

End Mesh.

(** ** awox_mesh.py: the command queue worker *)

Module Worker.

(** What the light method called by [_call_command] did. *)
Inductive send_outcome :=
| SendRaised                    (* raised an exception *)
| SendReturned (r : option Z).  (* returned; [None] is Python's [None] *)

(** One run of [_call_command]: the outcome of [_connect_device()]
    followed by [is_connected()] (it may raise), and of the command call. *)
Record attempt := {
  a_connected : result bool;
  a_send : send_outcome
}.

Inductive wevent :=
| Attempt (n : nat)       (* [_call_command] entered for the n-th time *)
| Disconnect              (* [_disconnect_current_device()] *)
| CompletionCallback.     (* [command['callback']()] *)

(** [_call_command]: its boolean result and whether it disconnected. *)
Definition call_command (allow_to_fail : bool) (a : attempt) : result (bool * bool) :=
  connected <- a_connected a ;;
  if negb connected then Ok (false, false) else
  let '(result_is_none, failed) :=
    match a_send a with
    | SendRaised => (true, true)
    | SendReturned r => (match r with None => true | Some _ => false end, false)
    end in
  let failed :=
    if result_is_none && negb allow_to_fail && negb failed then true else failed in
  Ok (negb (failed && negb allow_to_fail), failed).

(** [while not self._call_command(command) and tries < 3: tries = tries + 1]
    inside [try ... except Exception].  [n] is the number of calls made so
    far and [retries_left] is [3 - tries]; the second component is the
    exception caught by the [except] clause, if any. *)
Fixpoint retry_loop (env : nat -> attempt) (allow_to_fail : bool) (n retries_left : nat)
    : list wevent * option exn :=
  match call_command allow_to_fail (env n) with
  | Raise e => ([Attempt n], Some e)
  | Ok (ok, disc) =>
      let ev := Attempt n :: (if disc then [Disconnect] else []) in
      if ok then (ev, None)
      else
        match retries_left with
        | O => (ev, None)
        | S r => let '(ev', e) := retry_loop env allow_to_fail (S n) r in (ev ++ ev', e)
        end
  end.

(** One iteration of [_process_command_queue] on a dequeued command. *)
Definition process_command (env : nat -> attempt) (allow_to_fail : bool) : list wevent :=
  let '(ev, e) := retry_loop env allow_to_fail 0 3 in
  ev ++ (match e with Some _ => [Disconnect] | None => [] end) ++ [CompletionCallback].

Definition is_attempt (w : wevent) : bool :=
  match w with Attempt _ => true | _ => false end.

Definition is_completion (w : wevent) : bool :=
  match w with CompletionCallback => true | _ => false end.

Definition attempts (ev : list wevent) : nat := length (filter is_attempt ev).

(** [_async_add_command_to_queue] after [self._queue.put(...)]: it polls
    [done] until [command_executed] sets it and then returns [None]
    ([Some (Ok tt)]); [None] here means it would wait forever. *)
Definition submitter_result (ev : list wevent) : option (result unit) :=
  if existsb is_completion ev then Some (Ok tt) else None.

End Worker.

(** ** awoxmeshlight/__init__.py: [AwoxMeshLight.sendFirmware] *)

Module Firmware.

(** [chunk.ljust(0x10, b'\xff')] *)
Definition ljust_ff (b : bytes) : bytes := b ++ repeat 255 (16 - length b).

(** One packet of the loop: [struct.pack('<H', count)], the padded
    chunk, and [struct.pack('<H', crc16(data))]. *)
Definition data_packet (count : Z) (chunk : bytes) : result bytes :=
  c <- Packet.pack_u16_le count ;;
  let data := c ++ ljust_ff chunk in
  crc <- Packet.pack_u16_le (Packet.crc16 data) ;;
  Ok (data ++ crc).

(** The packet written after the loop. *)
Definition last_packet (count : Z) : result bytes :=
  data <- Packet.pack_u16_le count ;;
  crc <- Packet.pack_u16_le (Packet.crc16 data) ;;
  Ok (data ++ crc).

(** The packets passed to [ota_char.write], in order, and how the method
    ended.  The characteristic writes and [time.sleep] are taken to
    succeed. *)
Fixpoint send_loop (count : Z) (cs : list bytes) : list bytes * result unit :=
  match cs with
  | [] =>
      match last_packet count with
      | Ok p => ([p], Ok tt)
      | Raise e => ([], Raise e)
      end
  | c :: cs' =>
      match data_packet count c with
      | Ok p => let '(ps, r) := send_loop (count + 1) cs' in (p :: ps, r)
      | Raise e => ([], Raise e)
      end
  end.

(** [sendFirmware] on the bytes [firmware_data] read from the file:
    [assert (self.session_key)] fails on [None] and on empty bytes. *)
Definition send_firmware (session_key : option bytes) (firmware_data : bytes)
    : list bytes * result unit :=
  match session_key with
  | None | Some [] => ([], Raise AssertionError)
  | Some _ =>
      match firmware_data with
      | [] => ([], Ok tt)
      | _ => send_loop 0 (chunks16 firmware_data)
      end
  end.

End Firmware.

(** ** awoxmeshlight/__init__.py: [AwoxMeshLight.connectWithRetry] *)

Module ConnectRetry.

(** What one call of [self.connect(...)] did. *)
Inductive connect_outcome :=
| Returned (connected : bool)   (* returned True or False *)
| DisconnectError               (* raised btle.BTLEDisconnectError *)
| OtherError (e : exn).         (* raised any other exception *)

(** [while (not connected and attempts < num_tries)], with [fuel] the
    value of [num_tries - attempts]; returns the number of calls made and
    the return value or the exception. *)
Fixpoint retry_loop (env : nat -> connect_outcome) (connected : bool) (attempts fuel : nat)
    : nat * result bool :=
  match fuel with
  | O => (attempts, Ok connected)
  | S f =>
      if connected then (attempts, Ok connected)
      else
        match env attempts with
        | Returned c => retry_loop env c (S attempts) f
        | DisconnectError => retry_loop env connected (S attempts) f
        | OtherError e => (S attempts, Raise e)
        end
  end.

Definition connect_with_retry (env : nat -> connect_outcome) (num_tries : Z) : nat * result bool :=
  retry_loop env false 0 (Z.to_nat num_tries).

End ConnectRetry.

(** ** awoxmeshlight/__init__.py: commands and notifications *)

Module Command.

Import Light.

(** Exceptions of the Bluetooth layer, beside the Python ones. *)
Inductive btle_exn :=
| BTLEDisconnectError
| BTLEInternalError (helper_not_started : bool)  (* 'Helper not started' in str(err) *)
| PyError (e : exn).

(** What [command_char.write(packet, ...)] (with the characteristic
    lookup before it) did. *)
Inductive write_outcome :=
| WriteReturned (r : option Z)
| WriteRaised (e : btle_exn).

(** A return value or an exception. *)
Definition outcome := (option Z + btle_exn)%type.

(** [assert (self.session_key)]: [None] and empty bytes fail it. *)
Definition truthy_key (k : option bytes) : option bytes :=
  match k with
  | Some ((_ :: _) as b) => Some b
  | _ => None
  end.

Definition set_mesh_id_field (m : Z) (l : light) : light :=
  {| mac := mac l; mesh_id := m; session_key := session_key l;
     mesh_name := mesh_name l; mesh_password := mesh_password l;
     session_random := session_random l |}.

Definition set_mesh_credentials (n p : bytes) (l : light) : light :=
  {| mac := mac l; mesh_id := mesh_id l; session_key := session_key l;
     mesh_name := n; mesh_password := p; session_random := session_random l |}.

(** [writeCommand]; [s] is the sequence [make_command_packet] draws.
    Returns the new light, the packets handed to the write, and the
    outcome. *)
Definition write_command (l : light) (command : Z) (data : bytes) (dest : option Z)
    (s : bytes) (w : write_outcome) : light * list bytes * outcome :=
  match truthy_key (session_key l) with
  | None => (l, [], inr (PyError AssertionError))
  | Some key =>
      let dest := match dest with None => mesh_id l | Some d => d end in
      match Packet.make_command_packet key (mac l) dest command data s with
      | Raise e => (l, [], inr (PyError e))
      | Ok packet =>
          match w with
          | WriteReturned r => (l, [packet], inl r)
          | WriteRaised BTLEDisconnectError =>
              (set_session_key None l, [packet], inr BTLEDisconnectError)
          | WriteRaised (BTLEInternalError true) => (set_session_key None l, [packet], inl None)
          | WriteRaised (BTLEInternalError false) => (l, [packet], inl None)
          | WriteRaised (PyError e) => (l, [packet], inr (PyError e))
          end
      end
  end.

(** [setMeshId]: [writeCommand(C_MESH_ADDRESS, struct.pack("<H", mesh_id))]
    then [self.mesh_id = mesh_id]. *)
Definition set_mesh_id (l : light) (new_id : Z) (s : bytes) (w : write_outcome)
    : light * list bytes * outcome :=
  match Packet.pack_u16_le new_id with
  | Raise e => (l, [], inr (PyError e))
  | Ok data =>
      let '(l1, ps, r) := write_command l 224 data None s w in
      match r with
      | inl _ => (set_mesh_id_field new_id l1, ps, inl None)
      | inr e => (l1, ps, inr e)
      end
  end.

(** [struct.pack('BBBB', 0x04, red, green, blue)] *)
Definition pack_color (red green blue : Z) : result bytes :=
  a <- Packet.pack_u8 4 ;; r <- Packet.pack_u8 red ;;
  g <- Packet.pack_u8 green ;; b <- Packet.pack_u8 blue ;;
  Ok (a ++ r ++ g ++ b).

(** [setColor] *)
Definition set_color (l : light) (red green blue : Z) (dest : option Z) (s : bytes)
    (w : write_outcome) : light * list bytes * outcome :=
  match pack_color red green blue with
  | Raise e => (l, [], inr (PyError e))
  | Ok data => write_command l 226 data dest s w
  end.

(** [setWhite]: the temperature command, then the brightness command. *)
Definition set_white (l : light) (temp brightness : Z) (dest : option Z) (s1 s2 : bytes)
    (w1 w2 : write_outcome) : light * list bytes * outcome :=
  match Packet.pack_u8 temp with
  | Raise e => (l, [], inr (PyError e))
  | Ok d1 =>
      let '(l1, ps1, r1) := write_command l 240 d1 dest s1 w1 in
      match r1 with
      | inr e => (l1, ps1, inr e)
      | inl _ =>
          match Packet.pack_u8 brightness with
          | Raise e => (l1, ps1, inr (PyError e))
          | Ok d2 =>
              let '(l2, ps2, r2) := write_command l1 241 d2 dest s2 w2 in
              (l2, ps1 ++ ps2, r2)
          end
      end
  end.

(** [setMesh] on the encoded new name, password and long term key;
    [reply] is what [pair_char.read()] returned.  The writes to the
    pairing characteristic and the delegate changes are taken to succeed;
    the messages written are returned in order. *)
Definition set_mesh (l : light) (new_name new_password new_ltk reply : bytes)
    : result (light * list bytes * bool) :=
  match truthy_key (session_key l) with
  | None => Raise AssertionError
  | Some key =>
      if negb (length new_name <=? 16)%nat then Raise AssertionError else
      if negb (length new_password <=? 16)%nat then Raise AssertionError else
      if negb (length new_ltk <=? 16)%nat then Raise AssertionError else
      m1 <- Packet.encrypt key new_name ;;
      m2 <- Packet.encrypt key new_password ;;
      m3 <- Packet.encrypt key new_ltk ;;
      let written := [4 :: m1; 5 :: m2; 6 :: m3] in
      r0 <- index0 reply ;;
      if r0 =? 7 then Ok (set_mesh_credentials new_name new_password l, written, true)
      else Ok (l, written, false)
  end.

End Command.

(** ** awox_mesh.py: [_async_get_devices_rssi] *)

Module Scan.

Import Mesh.

(** The part of the [AwoxMesh] state the scan reads and writes. *)
Record scan_state := {
  sc_devices : directory;
  scanning_devices : bool;
  last_rssi_check : option Z;
  sc_connected : option Z;                (* self._connected_bluetooth_device *)
  sc_connected_device : option string     (* self._state['connected_device'] *)
}.

(** [str.upper()] on the ASCII characters of a MAC string. *)
Definition ascii_upper (c : ascii) : ascii :=
  let n := nat_of_ascii c in
  if ((97 <=? n) && (n <=? 122))%nat then ascii_of_nat (n - 32) else c.

Fixpoint upper (s : string) : string :=
  match s with
  | EmptyString => EmptyString
  | String c s' => String (ascii_upper c) (upper s')
  end.

(** The dict [DeviceScanner.async_find_devices] returns: MAC to the
    device's ['rssi'] entry. *)
Fixpoint scan_get (k : string) (found : list (string * option Z)) : option (option Z) :=
  match found with
  | [] => None
  | (k', v) :: found' => if String.eqb k k' then Some v else scan_get k found'
  end.

Definition with_rssi (r : Z) (i : device_info) : device_info :=
  {| dmac := dmac i; name := name i; callback := callback i;
     last_update := last_update i; update_count := update_count i;
     status_request_count := status_request_count i; rssi := r |}.

(** The loop over [self._devices.items()]; the flag is set when
    [device_info['mac'].upper()] raised [AttributeError] on a device
    without MAC, with the devices updated before it. *)
Fixpoint rssi_loop (found : list (string * option Z)) (d : directory) : directory * bool :=
  match d with
  | [] => ([], false)
  | (k, i) :: d' =>
      match dmac i with
      | None => ((k, i) :: d', true)
      | Some m =>
          let r := match scan_get (upper m) found with
                   | Some (Some r) => r
                   | Some None => -99999
                   | None => -999999
                   end in
          let '(d'', raised) := rssi_loop found d' in
          ((k, with_rssi r i) :: d'', raised)
      end
  end.

(** [_async_update_mesh_state] on this part of the state; the listeners
    it calls are not modelled, as for [Mesh.update_mesh_state]. *)
Definition update_mesh_state (st : scan_state) : result scan_state :=
  c <- is_connected (device_set (sc_connected st)) ;;
  Ok (if c then st
      else {| sc_devices := sc_devices st; scanning_devices := scanning_devices st;
              last_rssi_check := last_rssi_check st; sc_connected := sc_connected st;
              sc_connected_device := None |}).

(** [_async_get_devices_rssi]; [scan] is the result of the awaited
    [DeviceScanner.async_find_devices] ([None]: it raised, e.g. cancelled
    by the caller's timeout).  The flag tells whether an exception left
    the method. *)
Definition async_get_devices_rssi (now : Z) (scan : option (list (string * option Z)))
    (st : scan_state) : scan_state * bool :=
  if scanning_devices st then (st, false)
  else
    match scan with
    | None =>
        ({| sc_devices := sc_devices st; scanning_devices := true;
            last_rssi_check := last_rssi_check st; sc_connected := sc_connected st;
            sc_connected_device := sc_connected_device st |}, true)
    | Some found =>
        let '(d, raised) := rssi_loop found (sc_devices st) in
        if raised
        then ({| sc_devices := d; scanning_devices := true;
                 last_rssi_check := last_rssi_check st; sc_connected := sc_connected st;
                 sc_connected_device := sc_connected_device st |}, true)
        else
          let st1 := {| sc_devices := d; scanning_devices := true;
                        last_rssi_check := Some now; sc_connected := sc_connected st;
                        sc_connected_device := sc_connected_device st |} in
          match update_mesh_state st1 with
          | Ok st2 =>
              ({| sc_devices := sc_devices st2; scanning_devices := false;
                  last_rssi_check := last_rssi_check st2; sc_connected := sc_connected st2;
                  sc_connected_device := sc_connected_device st2 |}, false)
          | Raise _ => (st1, true)
          end
    end.

End Scan.

(** ** Concrete inputs used by the examples and witnesses *)

Definition test_key : bytes := [0;1;2;3;4;5;6;7;8;9;10;11;12;13;14;15].
Definition test_mac : string := "A4:C1:38:12:34:56".
Definition test_mac_bytes : bytes := [164; 193; 56; 18; 52; 86].

(** A transport whose [disconnect] raises. *)
Definition test_transport : Light.transport :=
  {| Light.t_connect := Ok tt; Light.t_write_pair := Ok tt;
     Light.t_write_status := Ok tt; Light.t_read_pair := Ok [13; 1; 2; 3; 4; 5; 6; 7; 8];
     Light.t_disconnect := Raise ValueError |}.

Definition test_light : Light.light :=
  {| Light.mac := test_mac; Light.mesh_id := 5; Light.session_key := Some test_key;
     Light.mesh_name := [84; 101; 115; 116]; Light.mesh_password := [84; 101; 115; 116];
     Light.session_random := None |}.

(** A directory of three registered devices, at rssi -40, -90 and
    -999999 (the value a device keeps until it is seen). *)
Definition test_device (nm : string) (cb r : Z) : Mesh.device_info :=
  {| Mesh.dmac := Some test_mac; Mesh.name := nm; Mesh.callback := cb;
     Mesh.last_update := None; Mesh.update_count := 0;
     Mesh.status_request_count := 0; Mesh.rssi := r |}.

Definition test_directory : Mesh.directory :=
  [(3, test_device "hall"%string 3 (-999999));
   (1, test_device "kitchen"%string 1 (-40));
   (2, test_device "bedroom"%string 2 (-90))].

(** A mesh with the light of mesh id 5 registered. *)
Definition test_mesh : Mesh.mesh :=
  {| Mesh.devices := Mesh.register_device 5 test_mac "lamp"%string 1 [];
     Mesh.cb_log := [] |}.

(** A decrypted 0xDB status response of mesh id 5. *)
Definition test_frame : bytes :=
  [0; 0; 0; 5; 0; 0; 0; 219; 0; 0; 1; 50; 60; 70; 255; 0; 0; 0; 0; 0].

(** Command runs where the light is never connected, and where it is
    connected but the command call returns [None]. *)
(** The mesh with no connected device, before [_async_connect_device]. *)
Definition test_conn_state : Mesh.conn_state :=
  {| Mesh.cs_connected := None; Mesh.cs_connected_device := None;
     Mesh.cs_last_connection := None; Mesh.cs_last_rssi_check := Some 0;
     Mesh.cs_log := [] |}.

Definition never_connected : nat -> Worker.attempt :=
  fun _ => {| Worker.a_connected := Ok false; Worker.a_send := Worker.SendReturned None |}.

Definition connected_no_reply : nat -> Worker.attempt :=
  fun _ => {| Worker.a_connected := Ok true; Worker.a_send := Worker.SendReturned None |}.

(** A 20-byte firmware image (two 16-byte blocks, the second partial)
    and one just past the 16-bit block counter. *)
Definition test_firmware : bytes := map Z.of_nat (seq 0 20).

Definition big_firmware : bytes := repeat 0 (Z.to_nat 1048561).

(** The white-temperature packet [setWhite] writes to the test light. *)
Definition test_white_packet : bytes :=
  match Packet.make_command_packet test_key test_mac 5 240 [50] [9; 9; 9] with
  | Ok p => p
  | Raise _ => []
  end.

(** A scan state over [test_directory], and a scan that saw its MAC. *)
Definition test_scan_state : Scan.scan_state :=
  {| Scan.sc_devices := test_directory; Scan.scanning_devices := false;
     Scan.last_rssi_check := None; Scan.sc_connected := None;
     Scan.sc_connected_device := None |}.

Definition test_found : list (string * option Z) := [(test_mac, Some (-50))].

(** ** Names used in the statements *)

(** The nonce and the plaintext payload of [make_command_packet]. *)
Definition command_nonce (a s : bytes) : bytes := firstn 4 (rev a) ++ [1] ++ s.

Definition command_payload (dest_id command : Z) (data : bytes) : bytes :=
  ljust 15 ([dest_id mod 256; dest_id / 256] ++ [command] ++ [96; 1] ++ data).

Definition entry : Type := (Z * Mesh.device_info)%type.

(** [x] ranks no lower than [y]. *)
Definition rssi_ge (x y : entry) : Prop := Mesh.rssi (snd y) <= Mesh.rssi (snd x).

Definition rssi_is (v : Z) (e : entry) : bool := Mesh.rssi (snd e) =? v.

Definition above_floor (e : entry) : bool := Mesh.rssi_floor <? Mesh.rssi (snd e).

(** A run of [_call_command] that fails: no connection, or a command
    call that raises or returns [None]. *)
Definition failing_attempt (a : Worker.attempt) : bool :=
  match Worker.a_connected a, Worker.a_send a with
  | Ok false, _ => true
  | Ok true, Worker.SendRaised => true
  | Ok true, Worker.SendReturned None => true
  | _, _ => false
  end.

Definition has_update (e : entry) : bool :=
  match Mesh.last_update (snd e) with Some _ => true | None => false end.

(** [if dest == None: dest = self.mesh_id] in [writeCommand]. *)
Definition command_target (l : Light.light) (dest : option Z) : Z :=
  match dest with None => Light.mesh_id l | Some d => d end.

(** A directory entry without a MAC. *)
Definition no_mac (e : entry) : bool :=
  match Mesh.dmac (snd e) with None => true | Some _ => false end.

(** The rssi [_async_get_devices_rssi] gives a device of MAC [m]. *)
Definition scan_rssi (found : list (string * option Z)) (m : string) : Z :=
  match Scan.scan_get (Scan.upper m) found with
  | Some (Some r) => r
  | Some None => -99999
  | None => -999999
  end.

Definition rescored (found : list (string * option Z)) (e : entry) : entry :=
  match Mesh.dmac (snd e) with
  | Some m => (fst e, Scan.with_rssi (scan_rssi found m) (snd e))
  | None => e
  end.

(** A MAC address written as [AA:BB:CC:DD:EE:FF], upper-case hex. *)
Definition hex_char (n : Z) : ascii :=
  ascii_of_nat (Z.to_nat (if n <? 10 then 48 + n else 55 + n)).

Fixpoint mac_string (bs : bytes) : string :=
  match bs with
  | [] => EmptyString
  | [b] => String (hex_char (b / 16)) (String (hex_char (b mod 16)) EmptyString)
  | b :: bs' =>
      String (hex_char (b / 16)) (String (hex_char (b mod 16)) (String ":" (mac_string bs')))
  end.

(** How the sweep changes one directory entry. *)
Definition swept (e e' : entry) : Prop :=
  fst e' = fst e
  /\ Mesh.dmac (snd e') = Mesh.dmac (snd e)
  /\ Mesh.name (snd e') = Mesh.name (snd e)
  /\ Mesh.callback (snd e') = Mesh.callback (snd e)
  /\ Mesh.rssi (snd e') = Mesh.rssi (snd e)
  /\ Mesh.status_request_count (snd e') = Mesh.status_request_count (snd e)
  /\ match Mesh.last_update (snd e) with
     | None => snd e' = snd e
     | Some _ => Mesh.last_update (snd e') = None /\ Mesh.update_count (snd e') = 0
     end.

(** * Proofs *)

(** The FIPS-197 Appendix C.1 test vector. *)
Example aes128_fips197 :
  AES.encrypt_block
    [0;1;2;3;4;5;6;7;8;9;10;11;12;13;14;15]
    [0;17;34;51;68;85;102;119;136;153;170;187;204;221;238;255]
  = [105;196;224;216;106;123;4;48;216;205;183;128;112;180;197;90].
Proof. vm_compute. reflexivity. Qed.

(** ** Byte-string lemmas *)

Lemma xor_bytes_length x y :
  length (xor_bytes x y) = Nat.min (length x) (length y).
Proof. revert y; induction x as [|a x IH]; intros [|b y]; simpl; auto. Qed.

Lemma xor_bytes_cancel e y :
  (length y <= length e)%nat -> xor_bytes e (xor_bytes e y) = y.
Proof.
  revert y; induction e as [|a e IH]; intros [|b y] H; simpl in *; try lia; auto.
  rewrite <- Z.lxor_assoc, Z.lxor_nilpotent, Z.lxor_0_l, IH by lia.
  reflexivity.
Qed.

Lemma ljust_length n b : length (ljust n b) = Nat.max n (length b).
Proof. unfold ljust. rewrite length_app, repeat_length. lia. Qed.

Lemma slice_length i j b :
  length (slice i j b) = Nat.min (j - i) (length b - i).
Proof. unfold slice. rewrite length_firstn, length_skipn. reflexivity. Qed.

Lemma chunks_fuel_irrel f g b :
  (length b <= f)%nat -> (length b <= g)%nat -> chunks_fuel f b = chunks_fuel g b.
Proof.
  revert g b; induction f as [|f IH]; intros [|g] [|x b] Hf Hg;
    cbn [chunks_fuel length] in *; try lia; auto.
  f_equal. apply IH; rewrite length_skipn; cbn [length]; lia.
Qed.

Lemma chunks16_nil : chunks16 [] = [].
Proof. reflexivity. Qed.

Lemma chunks16_cons b :
  b <> [] -> chunks16 b = firstn 16 b :: chunks16 (skipn 16 b).
Proof.
  intros Hb. destruct b as [|x b]; [congruence|].
  unfold chunks16 at 1. cbn [length chunks_fuel]. f_equal.
  unfold chunks16. apply chunks_fuel_irrel; rewrite ?length_skipn; simpl; lia.
Qed.

Lemma chunks16_single b :
  b <> [] -> (length b <= 16)%nat -> chunks16 b = [b].
Proof.
  intros Hb Hl. rewrite chunks16_cons by exact Hb.
  rewrite firstn_all2, skipn_all2 by exact Hl. reflexivity.
Qed.

(** ** AES output lengths *)

Lemma mix_column_length c : length (AES.mix_column c) = length c.
Proof. destruct c as [|a0 [|a1 [|a2 [|a3 [|a4 c]]]]]; reflexivity. Qed.

Lemma mix_columns_length s :
  length s = 16%nat -> length (AES.mix_columns s) = 16%nat.
Proof.
  intros H. unfold AES.mix_columns.
  rewrite !length_app, !mix_column_length, !slice_length, H. reflexivity.
Qed.

Lemma shift_rows_length s : length (AES.shift_rows s) = 16%nat.
Proof. unfold AES.shift_rows. rewrite length_map, length_seq. reflexivity. Qed.

Lemma next_round_key_length rc k :
  length k = 16%nat -> length (AES.next_round_key rc k) = 16%nat.
Proof.
  intros H. unfold AES.next_round_key. cbv zeta.
  assert (H3 : length (slice 12 16 k) = 4%nat) by (rewrite slice_length, H; reflexivity).
  destruct (slice 12 16 k) as [|b0 [|b1 [|b2 [|b3 [|b4 w]]]]];
    simpl in H3; try discriminate.
  rewrite !length_app, !xor_bytes_length, !slice_length, H. reflexivity.
Qed.

Lemma round_keys_length rcs k :
  length k = 16%nat -> Forall (fun x => length x = 16%nat) (AES.round_keys rcs k).
Proof.
  revert k; induction rcs as [|rc rcs IH]; intros k Hk; simpl.
  - constructor; auto.
  - constructor; auto. apply IH, next_round_key_length, Hk.
Qed.

Lemma rounds_length ks s :
  Forall (fun x => length x = 16%nat) ks -> length s = 16%nat ->
  length (AES.rounds ks s) = 16%nat.
Proof.
  revert s; induction ks as [|k ks IH]; intros s Hks Hs; [exact Hs|].
  inversion Hks as [|? ? Hk Hks']; subst.
  destruct ks as [|k' ks'].
  - cbn [AES.rounds]. unfold AES.add_round_key. rewrite xor_bytes_length, shift_rows_length, Hk.
    reflexivity.
  - change (AES.rounds (k :: k' :: ks') s) with
      (AES.rounds (k' :: ks')
         (AES.add_round_key (AES.mix_columns (AES.shift_rows (AES.sub_bytes s))) k)).
    apply IH; auto. unfold AES.add_round_key.
    rewrite xor_bytes_length, mix_columns_length, Hk; auto using shift_rows_length.
Qed.

Lemma encrypt_block_length key block :
  length key = 16%nat -> length block = 16%nat ->
  length (AES.encrypt_block key block) = 16%nat.
Proof.
  intros Hk Hb. unfold AES.encrypt_block.
  pose proof (round_keys_length AES.rcon key Hk) as Hall.
  destruct (AES.round_keys AES.rcon key) as [|k0 ks]; auto.
  inversion Hall as [|? ? Hk0 Hks]; subst.
  apply rounds_length; auto.
  unfold AES.add_round_key. rewrite xor_bytes_length, Hb, Hk0. reflexivity.
Qed.

(** ** Totality of the codec primitives *)

Lemma encrypt_ok key v :
  length key = 16%nat -> (length v <= 16)%nat ->
  exists c, Packet.encrypt key v = Ok c /\ length c = 16%nat.
Proof.
  intros Hk Hv.
  assert (Hl : length (rev (ljust 16 v)) = 16%nat)
    by (rewrite length_rev, ljust_length; lia).
  unfold Packet.encrypt.
  destruct key as [|k0 key']; [discriminate|].
  rewrite Hk. cbn [Nat.eqb negb]. cbv zeta.
  unfold Packet.ecb_encrypt. rewrite Hl. cbn [Nat.modulo Nat.eqb].
  rewrite (chunks16_single (rev (ljust 16 v))) by
    (try (intros E; rewrite E in Hl; discriminate); lia).
  cbn [map concat bind]. eexists; split; [reflexivity|].
  rewrite length_rev, app_nil_r.
  apply encrypt_block_length; [rewrite length_rev; exact Hk | exact Hl].
Qed.

Lemma checksum_loop_ok key cs check :
  length key = 16%nat -> length check = 16%nat ->
  exists c, Packet.checksum_loop key check cs = Ok c /\ length c = 16%nat.
Proof.
  intros Hk. revert check; induction cs as [|c cs IH]; intros check Hc.
  - exists check; auto.
  - cbn [Packet.checksum_loop].
    destruct (encrypt_ok key (xor_bytes check (ljust 16 c))) as [e [He Hle]];
      [exact Hk | rewrite xor_bytes_length, ljust_length; lia |].
    rewrite He. cbn [bind]. apply IH, Hle.
Qed.

Lemma make_checksum_ok key nonce payload :
  length key = 16%nat -> (length nonce <= 15)%nat -> (length payload <= 255)%nat ->
  exists c, Packet.make_checksum key nonce payload = Ok c /\ length c = 16%nat.
Proof.
  intros Hk Hn Hp. unfold Packet.make_checksum, Packet.byte_of_int.
  replace ((0 <=? Z.of_nat (length payload)) && (Z.of_nat (length payload) <=? 255))
    with true by (symmetry; apply andb_true_iff; split; apply Z.leb_le; lia).
  cbn [bind]. cbv zeta.
  destruct (encrypt_ok key (ljust 16 (nonce ++ [Z.of_nat (length payload)])))
    as [e [He Hle]];
    [exact Hk | rewrite ljust_length, length_app; cbn [length]; lia |].
  rewrite He. cbn [bind]. apply checksum_loop_ok; assumption.
Qed.

Lemma make_checksum_long key nonce payload :
  (256 <= length payload)%nat ->
  Packet.make_checksum key nonce payload = Raise ValueError.
Proof.
  intros Hp. unfold Packet.make_checksum, Packet.byte_of_int.
  replace ((0 <=? Z.of_nat (length payload)) && (Z.of_nat (length payload) <=? 255))
    with false by (symmetry; apply andb_false_iff; right; apply Z.leb_gt; lia).
  reflexivity.
Qed.

Lemma crypt_loop_chunks key base p :
  p <> [] ->
  Packet.crypt_loop key base (chunks16 p) =
  (enc_base <- Packet.encrypt key base ;;
   base' <- Packet.incr_first base ;;
   rest <- Packet.crypt_loop key base' (chunks16 (skipn 16 p)) ;;
   Ok (xor_bytes enc_base (firstn 16 p) ++ rest)).
Proof. intros Hp. rewrite chunks16_cons by exact Hp. reflexivity. Qed.

Lemma block_split (x r : bytes) :
  (length x <= 16)%nat -> length x = 16%nat \/ r = [] ->
  firstn 16 (x ++ r) = x /\ skipn 16 (x ++ r) = r.
Proof.
  intros Hle [Hx | ->].
  - rewrite firstn_app, skipn_app, Hx, firstn_all2, skipn_all2 by lia.
    simpl. rewrite app_nil_r. auto.
  - rewrite app_nil_r, firstn_all2, skipn_all2 by lia. auto.
Qed.

(** Every run of the keystream loop either raises [ValueError] (the
    counter byte overflows) or preserves the length. *)
Lemma crypt_loop_total key n : forall p base,
  length key = 16%nat -> length base = 16%nat -> (length p <= 16 * n)%nat ->
  (exists r, Packet.crypt_loop key base (chunks16 p) = Ok r /\ length r = length p)
  \/ Packet.crypt_loop key base (chunks16 p) = Raise ValueError.
Proof.
  induction n as [|n IH]; intros p base Hk Hb Hp.
  - destruct p; [|simpl in Hp; lia]. left. exists []. auto.
  - destruct p as [|x p'] eqn:Ep; [left; exists []; auto|].
    rewrite <- Ep in Hp |- *. rewrite crypt_loop_chunks by (rewrite Ep; discriminate).
    destruct (encrypt_ok key base Hk) as [e [He Hle]]; [lia|].
    rewrite He. cbn [bind].
    destruct base as [|b t]; [discriminate|].
    unfold Packet.incr_first.
    destruct (b + 1 <=? 255); cbn [bind]; [|right; reflexivity].
    destruct (IH (skipn 16 p) (b + 1 :: t)) as [[r [Hr Hlr]] | Hr];
      [exact Hk | exact Hb | rewrite length_skipn; lia | | ].
    + rewrite Hr. cbn [bind]. left. eexists; split; [reflexivity|].
      rewrite length_app, xor_bytes_length, length_firstn, Hlr, length_skipn. lia.
    + rewrite Hr. right. reflexivity.
Qed.

(** Below the counter overflow, the keystream loop is an involution. *)
Lemma crypt_loop_involutive key n : forall p b t,
  length key = 16%nat -> length (b :: t) = 16%nat -> b + Z.of_nat n <= 255 ->
  (length p <= 16 * n)%nat ->
  exists r, Packet.crypt_loop key (b :: t) (chunks16 p) = Ok r
            /\ length r = length p
            /\ Packet.crypt_loop key (b :: t) (chunks16 r) = Ok p.
Proof.
  induction n as [|n IH]; intros p b t Hk Hb Hn Hp.
  - destruct p; [|simpl in Hp; lia]. exists []. auto.
  - destruct p as [|x p'] eqn:Ep; [exists []; auto|].
    rewrite <- Ep in Hp |- *. assert (Hne : p <> []) by (rewrite Ep; discriminate).
    destruct (encrypt_ok key (b :: t) Hk) as [e [He Hle]]; [lia|].
    assert (Hinc : Packet.incr_first (b :: t) = Ok (b + 1 :: t)).
    { unfold Packet.incr_first. replace (b + 1 <=? 255) with true
        by (symmetry; apply Z.leb_le; lia). reflexivity. }
    destruct (IH (skipn 16 p) (b + 1) t) as [r' [Hr' [Hlr' Hback]]];
      [exact Hk | exact Hb | lia | rewrite length_skipn; lia |].
    set (X := xor_bytes e (firstn 16 p)).
    assert (HlX : length X = Nat.min 16 (length p))
      by (unfold X; rewrite xor_bytes_length, length_firstn; lia).
    exists (X ++ r'). split; [|split].
    + rewrite crypt_loop_chunks by exact Hne.
      rewrite He, Hinc. cbn [bind]. rewrite Hr'. reflexivity.
    + rewrite length_app, HlX, Hlr', length_skipn. lia.
    + assert (Hsplit : firstn 16 (X ++ r') = X /\ skipn 16 (X ++ r') = r').
      { apply block_split; [lia|].
        destruct (Nat.le_gt_cases 16 (length p)); [left; lia | right].
        apply length_zero_iff_nil. rewrite Hlr', length_skipn. lia. }
      destruct Hsplit as [Hf Hs].
      rewrite crypt_loop_chunks
        by (intros E; apply (f_equal (@length Z)) in E;
            rewrite length_app, HlX in E; simpl in E; rewrite Ep in E; simpl in E; lia).
      rewrite He, Hinc, Hf, Hs. cbn [bind]. rewrite Hback. cbn [bind].
      unfold X. rewrite xor_bytes_cancel by (rewrite length_firstn; lia).
      rewrite firstn_skipn. reflexivity.
Qed.

Lemma crypt_base_shape nonce :
  (length nonce <= 15)%nat ->
  exists t, ljust 16 (0 :: nonce) = 0 :: t /\ length (0 :: t) = 16%nat.
Proof.
  intros Hn. exists (nonce ++ repeat 0 (16 - S (length nonce))). split.
  - reflexivity.
  - cbn [length]. rewrite length_app, repeat_length. lia.
Qed.

Lemma crypt_payload_roundtrip key nonce p :
  length key = 16%nat -> (length nonce <= 15)%nat -> (length p <= 4080)%nat ->
  exists r, Packet.crypt_payload key nonce p = Ok r
            /\ length r = length p
            /\ Packet.crypt_payload key nonce r = Ok p.
Proof.
  intros Hk Hn Hp. unfold Packet.crypt_payload.
  destruct (crypt_base_shape nonce Hn) as [t [-> Ht]].
  apply (crypt_loop_involutive key 255); auto; simpl; lia.
Qed.

Lemma crypt_payload_total key nonce p :
  length key = 16%nat -> (length nonce <= 15)%nat ->
  (exists r, Packet.crypt_payload key nonce p = Ok r /\ length r = length p)
  \/ Packet.crypt_payload key nonce p = Raise ValueError.
Proof.
  intros Hk Hn. unfold Packet.crypt_payload.
  apply (crypt_loop_total key (length p)); auto;
    try rewrite ljust_length; cbn [length]; lia.
Qed.

Lemma bytes_eqb_spec x y : bytes_eqb x y = true <-> x = y.
Proof.
  revert y; induction x as [|a x IH]; intros [|b y]; simpl;
    try (split; intros; congruence).
  rewrite andb_true_iff, Z.eqb_eq, IH. split.
  - intros [-> ->]; reflexivity.
  - intros E; injection E; auto.
Qed.

Lemma pack_u16_le_ok v :
  0 <= v <= 65535 -> Packet.pack_u16_le v = Ok [v mod 256; v / 256].
Proof.
  intros Hv. unfold Packet.pack_u16_le.
  replace ((0 <=? v) && (v <=? 65535)) with true
    by (symmetry; apply andb_true_iff; split; apply Z.leb_le; lia).
  reflexivity.
Qed.

Lemma pack_u8_ok v : 0 <= v <= 255 -> Packet.pack_u8 v = Ok [v].
Proof.
  intros Hv. unfold Packet.pack_u8.
  replace ((0 <=? v) && (v <=? 255)) with true
    by (symmetry; apply andb_true_iff; split; apply Z.leb_le; lia).
  reflexivity.
Qed.

Lemma make_command_packet_shape key address a dest_id command data s :
  length key = 16%nat ->
  Packet.fromhex (Packet.remove_colons address) = Ok a ->
  0 <= dest_id <= 65535 -> 0 <= command <= 255 ->
  (length data <= 11)%nat -> length s = 3%nat ->
  exists check enc,
    Packet.make_checksum key (command_nonce a s) (command_payload dest_id command data)
      = Ok check
    /\ length check = 16%nat
    /\ Packet.crypt_payload key (command_nonce a s) (command_payload dest_id command data)
      = Ok enc
    /\ length enc = Nat.max 15 (5 + length data)
    /\ Packet.crypt_payload key (command_nonce a s) enc
      = Ok (command_payload dest_id command data)
    /\ Packet.make_command_packet key address dest_id command data s
      = Ok (s ++ firstn 2 check ++ enc).
Proof.
  intros Hk Ha Hd Hc Hdata Hs.
  assert (Hn : (length (command_nonce a s) <= 15)%nat).
  { unfold command_nonce. rewrite !length_app, length_firstn. cbn [length]. lia. }
  assert (Hpl : length (command_payload dest_id command data)
                = Nat.max 15 (5 + length data)).
  { unfold command_payload. rewrite ljust_length, !length_app. reflexivity. }
  destruct (make_checksum_ok key (command_nonce a s) (command_payload dest_id command data))
    as [check [Hchk Hlc]]; [exact Hk | exact Hn | lia |].
  destruct (crypt_payload_roundtrip key (command_nonce a s)
              (command_payload dest_id command data))
    as [enc [Henc [Hle Hback]]]; [exact Hk | exact Hn | lia |].
  exists check, enc. repeat split; auto; [lia|].
  unfold Packet.make_command_packet. rewrite Ha. cbn [bind].
  rewrite pack_u16_le_ok, pack_u8_ok by assumption. cbn [bind].
  change (firstn 4 (rev a) ++ [1] ++ s) with (command_nonce a s).
  change (ljust 15 ([dest_id mod 256; dest_id / 256] ++ [command] ++ [96; 1] ++ data))
    with (command_payload dest_id command data).
  rewrite Hchk. cbn [bind]. rewrite Henc. reflexivity.
Qed.

(** C3 (amended): [make_command_packet] never raises on a 16-byte key, a
    MAC string that [bytearray.fromhex] accepts, a 16-bit destination, an
    8-bit opcode and at most 11 data bytes, and returns the 3-byte
    sequence, the first 2 checksum bytes and the encrypted payload, which
    has [max 15 (5 + len data)] bytes: the packet has 20 bytes for at most
    10 data bytes and 21 bytes for 11. *)
Theorem make_command_packet_layout key address a dest_id command data s
  (Hk : length key = 16%nat)
  (Ha : Packet.fromhex (Packet.remove_colons address) = Ok a)
  (Hd : 0 <= dest_id <= 65535) (Hc : 0 <= command <= 255)
  (Hdata : (length data <= 11)%nat) (Hs : length s = 3%nat) :
  exists check enc p,
    Packet.make_command_packet key address dest_id command data s = Ok p
    /\ Packet.make_checksum key (command_nonce a s) (command_payload dest_id command data)
       = Ok check
    /\ Packet.crypt_payload key (command_nonce a s) (command_payload dest_id command data)
       = Ok enc
    /\ p = s ++ firstn 2 check ++ enc
    /\ length enc = Nat.max 15 (5 + length data)
    /\ length p = (5 + Nat.max 15 (5 + length data))%nat.
Proof.
  destruct (make_command_packet_shape key address a dest_id command data s)
    as [check [enc [Hchk [Hlc [Henc [Hle [_ Hp]]]]]]]; auto.
  exists check, enc, (s ++ firstn 2 check ++ enc). repeat split; auto.
  rewrite !length_app, length_firstn, Hlc, Hs, Hle. reflexivity.
Qed.

(** C1 (amended): the command packet is inverted by [crypt_payload] under
    the command nonce (reversed MAC[0:4], 0x01, sequence): applied to
    packet bytes 5.. it returns a payload whose first two checksum bytes
    are packet bytes 3..4 and which decodes to the little-endian
    destination, the opcode, the 0x60 0x01 marker and the data. *)
Theorem command_packet_roundtrip key address a dest_id command data s
  (Hk : length key = 16%nat)
  (Ha : Packet.fromhex (Packet.remove_colons address) = Ok a)
  (Hd : 0 <= dest_id <= 65535) (Hc : 0 <= command <= 255)
  (Hdata : (length data <= 11)%nat) (Hs : length s = 3%nat) :
  exists p pl check,
    Packet.make_command_packet key address dest_id command data s = Ok p
    /\ Packet.crypt_payload key (command_nonce a s) (skipn 5 p) = Ok pl
    /\ Packet.make_checksum key (command_nonce a s) pl = Ok check
    /\ firstn 2 check = slice 3 5 p
    /\ nth 0 pl 0 + 256 * nth 1 pl 0 = dest_id
    /\ nth 2 pl 0 = command
    /\ slice 3 5 pl = [96; 1]
    /\ slice 5 (5 + length data) pl = data.
Proof.
  destruct (make_command_packet_shape key address a dest_id command data s)
    as [check [enc [Hchk [Hlc [Henc [Hle [Hback Hp]]]]]]]; auto.
  assert (H5 : skipn 5 (s ++ firstn 2 check ++ enc) = enc).
  { rewrite skipn_app, skipn_all2 by lia. rewrite Hs. cbn [app].
    rewrite skipn_app, skipn_all2 by (rewrite length_firstn; lia).
    rewrite length_firstn, Hlc. reflexivity. }
  assert (H35 : slice 3 5 (s ++ firstn 2 check ++ enc) = firstn 2 check).
  { unfold slice. rewrite skipn_app, skipn_all2 by lia. rewrite Hs.
    cbn [app Nat.sub skipn].
    rewrite firstn_app, firstn_all2 by (rewrite length_firstn; lia).
    rewrite length_firstn, Hlc. cbn [Nat.min Nat.sub firstn]. apply app_nil_r. }
  exists (s ++ firstn 2 check ++ enc), (command_payload dest_id command data), check.
  rewrite H5, H35. repeat split; auto.
  - unfold command_payload, ljust. cbn [app nth].
    pose proof (Z.div_mod dest_id 256). lia.
  - unfold slice, command_payload, ljust. set (z := repeat 0 _). cbn [app skipn].
    replace (5 + length data - 5)%nat with (length data) by lia.
    rewrite firstn_app, firstn_all, Nat.sub_diag. apply app_nil_r.
Qed.

(** C10: [crypt_payload] is a length-preserving involution for a 16-byte
    key, a nonce of at most 15 bytes and a payload of at most 4080 bytes
    (255 blocks, below the overflow of the counter byte). *)
Theorem crypt_payload_involution key nonce payload
  (Hk : length key = 16%nat) (Hn : (length nonce <= 15)%nat)
  (Hp : (length payload <= 4080)%nat) :
  exists enc, Packet.crypt_payload key nonce payload = Ok enc
              /\ length enc = length payload
              /\ Packet.crypt_payload key nonce enc = Ok payload.
Proof. apply crypt_payload_roundtrip; assumption. Qed.

(** C4 (amended): on a 16-byte key and a MAC string [fromhex] accepts,
    [decrypt_packet] never raises for a packet of at most 262 bytes, and
    returns [None] exactly when the first two bytes of the checksum of
    the decrypted payload differ from packet bytes 5..6, else the first 7
    packet bytes followed by the decrypted payload; from 263 bytes on it
    raises [ValueError]. *)
Theorem decrypt_packet_total key address a packet
  (Hk : length key = 16%nat)
  (Ha : Packet.fromhex (Packet.remove_colons address) = Ok a) :
  let nonce := firstn 3 (rev a) ++ firstn 5 packet in
  ((length packet <= 262)%nat ->
   exists payload check,
     Packet.crypt_payload key nonce (skipn 7 packet) = Ok payload
     /\ Packet.make_checksum key nonce payload = Ok check
     /\ (firstn 2 check <> slice 5 7 packet ->
         Packet.decrypt_packet key address packet = Ok None)
     /\ (firstn 2 check = slice 5 7 packet ->
         Packet.decrypt_packet key address packet = Ok (Some (firstn 7 packet ++ payload))))
  /\ ((263 <= length packet)%nat ->
      Packet.decrypt_packet key address packet = Raise ValueError).
Proof.
  intros nonce.
  assert (Hn : (length nonce <= 15)%nat)
    by (unfold nonce; rewrite length_app, !length_firstn; lia).
  assert (Hdec : Packet.decrypt_packet key address packet =
                 (payload <- Packet.crypt_payload key nonce (skipn 7 packet) ;;
                  check <- Packet.make_checksum key nonce payload ;;
                  if negb (bytes_eqb (firstn 2 check) (slice 5 7 packet)) then Ok None
                  else Ok (Some (firstn 7 packet ++ payload))))
    by (unfold Packet.decrypt_packet; rewrite Ha; reflexivity).
  split.
  - intros Hlen.
    destruct (crypt_payload_total key nonce (skipn 7 packet) Hk Hn)
      as [[payload [Hp Hlp]] | Hraise].
    + rewrite length_skipn in Hlp.
      destruct (make_checksum_ok key nonce payload) as [check [Hc _]];
        [exact Hk | exact Hn | lia |].
      exists payload, check. repeat split; auto.
      * intros Hne. rewrite Hdec, Hp. cbn [bind]. rewrite Hc. cbn [bind].
        destruct (bytes_eqb (firstn 2 check) (slice 5 7 packet)) eqn:E; [|reflexivity].
        apply bytes_eqb_spec in E. contradiction.
      * intros Heq. rewrite Hdec, Hp. cbn [bind]. rewrite Hc. cbn [bind].
        apply bytes_eqb_spec in Heq. rewrite Heq. reflexivity.
    + exfalso.
      destruct (crypt_payload_roundtrip key nonce (skipn 7 packet)) as [r [Hr _]];
        [exact Hk | exact Hn | rewrite length_skipn; lia |].
      congruence.
  - intros Hlen. rewrite Hdec.
    destruct (crypt_payload_total key nonce (skipn 7 packet) Hk Hn)
      as [[payload [Hp Hlp]] | Hraise].
    + rewrite Hp. cbn [bind]. rewrite make_checksum_long; [reflexivity|].
      rewrite Hlp, length_skipn. lia.
    + rewrite Hraise. reflexivity.
Qed.

(** ** Session: pairing and disconnect *)

Lemma name_pass_length n p :
  (length n <= 16)%nat -> (length p <= 16)%nat ->
  length (xor_bytes (ljust 16 n) (ljust 16 p)) = 16%nat.
Proof. intros Hn Hp. rewrite xor_bytes_length, !ljust_length. lia. Qed.

Lemma make_pair_packet_ok n p sr :
  (length n <= 16)%nat -> (length p <= 16)%nat -> (length sr <= 16)%nat ->
  exists msg, Packet.make_pair_packet n p sr = Ok msg.
Proof.
  intros Hn Hp Hsr. unfold Packet.make_pair_packet. cbv zeta.
  destruct (encrypt_ok (ljust 16 sr) (xor_bytes (ljust 16 n) (ljust 16 p)))
    as [enc [He _]];
    [rewrite ljust_length; lia | rewrite name_pass_length; auto |].
  rewrite He. eexists; reflexivity.
Qed.

Lemma make_session_key_ok n p sr rr :
  (length n <= 16)%nat -> (length p <= 16)%nat -> (length (sr ++ rr) <= 16)%nat ->
  exists key, Packet.make_session_key n p sr rr = Ok key /\ length key = 16%nat.
Proof.
  intros Hn Hp Hr. unfold Packet.make_session_key. cbv zeta.
  apply encrypt_ok; [apply name_pass_length|]; assumption.
Qed.

Lemma disconnect_eq t l :
  Light.disconnect t l
  = Ok (Light.set_session_key None l, [Light.ReleaseTransport (Light.session_key l)]).
Proof. unfold Light.disconnect. destruct (Light.t_disconnect t); reflexivity. Qed.

(** C5: with the transport calls up to the read of the pairing reply
    succeeding, [connect] returns [True] exactly when reply byte 0 is
    0x0D, and then holds the 16-byte key [make_session_key] derives from
    name, password, the session random and reply bytes 1..8; otherwise it
    returns [False] without raising, after releasing the transport, and
    holds no session key. *)
Theorem connect_pairing_reply t sr l reply
  (Hname : (length (Light.mesh_name l) <= 16)%nat)
  (Hpass : (length (Light.mesh_password l) <= 16)%nat)
  (Hc : Light.t_connect t = Ok tt) (Hw1 : Light.t_write_pair t = Ok tt)
  (Hw2 : Light.t_write_status t = Ok tt) (Hr : Light.t_read_pair t = Ok reply)
  (Hsr : length sr = 8%nat) (Hne : reply <> []) :
  exists ok l' tr,
    Light.connect t sr l = Ok (ok, l', tr)
    /\ (ok = true <-> hd 0 reply = 13)
    /\ (ok = true ->
        exists key, Packet.make_session_key (Light.mesh_name l) (Light.mesh_password l)
                      sr (slice 1 9 reply) = Ok key
                    /\ length key = 16%nat
                    /\ Light.session_key l' = Some key)
    /\ (ok = false ->
        Light.session_key l' = None
        /\ In (Light.ReleaseTransport (Light.session_key l)) tr).
Proof.
  destruct (make_pair_packet_ok (Light.mesh_name l) (Light.mesh_password l) sr)
    as [msg Hmsg]; [assumption | assumption | lia |].
  destruct reply as [|r0 rest]; [congruence|].
  unfold Light.connect.
  replace (negb (length (Light.mesh_name l) <=? 16)%nat) with false
    by (symmetry; apply negb_false_iff, Nat.leb_le; exact Hname).
  replace (negb (length (Light.mesh_password l) <=? 16)%nat) with false
    by (symmetry; apply negb_false_iff, Nat.leb_le; exact Hpass).
  rewrite Hc. cbn [bind Light.mesh_name Light.mesh_password Light.set_session_random].
  rewrite Hmsg, Hw1, Hw2, Hr. cbn [bind Light.index0 hd].
  destruct (r0 =? 13) eqn:E.
  - destruct (make_session_key_ok (Light.mesh_name l) (Light.mesh_password l) sr
                (slice 1 9 (r0 :: rest))) as [key [Hkey Hlk]];
      [assumption | assumption | rewrite length_app, slice_length; lia |].
    rewrite Hkey. cbn [bind].
    eexists true, _, _. split; [reflexivity|].
    split; [split; [intros _; apply Z.eqb_eq, E | auto]|].
    split; [|discriminate].
    intros _. exists key. auto.
  - rewrite disconnect_eq. cbn [bind].
    eexists false, _, _. split; [reflexivity|].
    split; [split; [discriminate | intros H; apply Z.eqb_neq in E; contradiction]|].
    split; [discriminate|].
    intros _. split; [reflexivity|]. cbn. auto.
Qed.

(** C6 (amended): [disconnect] never raises and is idempotent; it calls
    the transport release while the session key is still held (an
    exception there is swallowed), then clears the session key and
    changes nothing else; a second call releases again with no key and
    leaves the state as it is. *)
Theorem disconnect_releases_then_clears t1 t2 l :
  exists l1,
    Light.disconnect t1 l = Ok (l1, [Light.ReleaseTransport (Light.session_key l)])
    /\ l1 = Light.set_session_key None l
    /\ Light.session_key l1 = None
    /\ Light.disconnect t2 l1 = Ok (l1, [Light.ReleaseTransport None]).
Proof.
  exists (Light.set_session_key None l). rewrite !disconnect_eq.
  repeat split.
Qed.

(** C6: on a light holding a session key, the transport is released while
    the key is still set, so the key is not cleared first. *)
Lemma disconnect_key_still_set_at_release :
  Light.disconnect test_transport test_light
  = Ok (Light.set_session_key None test_light, [Light.ReleaseTransport (Some test_key)])
  /\ Light.session_key test_light <> None.
Proof. split; [reflexivity | discriminate]. Qed.

(** ** Scheduler: candidate ranking *)

Section Ranking.

Lemma insert_desc_perm x l : Permutation (Mesh.insert_desc x l) (x :: l).
Proof.
  induction l as [|y l IH]; simpl; [auto|].
  destruct (Mesh.rssi (snd y) <? Mesh.rssi (snd x)); [auto|].
  rewrite IH. apply perm_swap.
Qed.

Lemma fold_insert_perm d acc :
  Permutation (fold_left (fun acc x => Mesh.insert_desc x acc) d acc) (acc ++ d).
Proof.
  revert acc; induction d as [|x d IH]; intros acc; simpl.
  - rewrite app_nil_r. auto.
  - rewrite IH, insert_desc_perm. apply Permutation_middle.
Qed.

Lemma sort_perm d : Permutation (Mesh.sort_by_rssi_desc d) d.
Proof. unfold Mesh.sort_by_rssi_desc. rewrite fold_insert_perm. auto. Qed.

Lemma insert_desc_hd y x l :
  HdRel rssi_ge y l -> rssi_ge y x -> HdRel rssi_ge y (Mesh.insert_desc x l).
Proof.
  intros Hl Hyx. destruct l as [|z l]; simpl; [auto|].
  destruct (Mesh.rssi (snd z) <? Mesh.rssi (snd x)); auto.
  inversion Hl; auto.
Qed.

Lemma insert_desc_sorted x l : Sorted rssi_ge l -> Sorted rssi_ge (Mesh.insert_desc x l).
Proof.
  induction l as [|y l IH]; intros Hs; simpl; [auto|].
  inversion Hs as [|? ? Hl Hhd]; subst.
  destruct (Mesh.rssi (snd y) <? Mesh.rssi (snd x)) eqn:E.
  - apply Z.ltb_lt in E. constructor; auto. constructor. unfold rssi_ge. lia.
  - apply Z.ltb_ge in E. constructor; auto. apply insert_desc_hd; auto.
Qed.

Lemma fold_insert_sorted d acc :
  Sorted rssi_ge acc ->
  Sorted rssi_ge (fold_left (fun acc x => Mesh.insert_desc x acc) d acc).
Proof.
  revert acc; induction d as [|x d IH]; intros acc Hs; simpl; auto.
  apply IH, insert_desc_sorted, Hs.
Qed.

Lemma sort_sorted d : Sorted rssi_ge (Mesh.sort_by_rssi_desc d).
Proof. apply fold_insert_sorted. constructor. Qed.

Lemma rssi_ge_trans : Relations_1.Transitive rssi_ge.
Proof. intros x y z. unfold rssi_ge. lia. Qed.

Lemma sorted_below y l :
  Sorted rssi_ge (y :: l) -> Forall (fun e => Mesh.rssi (snd e) <= Mesh.rssi (snd y)) (y :: l).
Proof.
  intros Hs. apply Sorted_StronglySorted in Hs; [|exact rssi_ge_trans].
  inversion Hs as [|? ? _ Hall]; subst. constructor; [lia|].
  eapply Forall_impl; [|exact Hall]. intros e He. exact He.
Qed.

Lemma filter_nil_below v l :
  Forall (fun e => Mesh.rssi (snd e) < v) l -> filter (rssi_is v) l = [].
Proof.
  induction 1 as [|e l He Hl IH]; simpl; auto.
  unfold rssi_is at 1. replace (Mesh.rssi (snd e) =? v) with false
    by (symmetry; apply Z.eqb_neq; lia). exact IH.
Qed.

(** Inserting keeps the elements of one rssi in arrival order. *)
Lemma insert_desc_stable v x l :
  Sorted rssi_ge l ->
  filter (rssi_is v) (Mesh.insert_desc x l)
  = filter (rssi_is v) l ++ filter (rssi_is v) [x].
Proof.
  induction l as [|y l IH]; intros Hs; cbn [Mesh.insert_desc]; [reflexivity|].
  destruct (Mesh.rssi (snd y) <? Mesh.rssi (snd x)) eqn:E.
  - apply Z.ltb_lt in E.
    change (filter (rssi_is v) (x :: y :: l)) with
      (if rssi_is v x then x :: filter (rssi_is v) (y :: l)
       else filter (rssi_is v) (y :: l)).
    destruct (rssi_is v x) eqn:Ex.
    + assert (Hv : Mesh.rssi (snd x) = v) by (apply Z.eqb_eq; exact Ex).
      rewrite (filter_nil_below v (y :: l)).
      * simpl. rewrite Ex. reflexivity.
      * eapply Forall_impl; [|exact (sorted_below y l Hs)]. intros e He. cbv beta in *. lia.
    + replace (filter (rssi_is v) [x]) with (@nil entry)
        by (simpl; rewrite Ex; reflexivity).
      rewrite app_nil_r. reflexivity.
  - inversion Hs; subst.
    change (filter (rssi_is v) (y :: Mesh.insert_desc x l)) with
      (if rssi_is v y then y :: filter (rssi_is v) (Mesh.insert_desc x l)
       else filter (rssi_is v) (Mesh.insert_desc x l)).
    change (filter (rssi_is v) (y :: l)) with
      (if rssi_is v y then y :: filter (rssi_is v) l else filter (rssi_is v) l).
    rewrite IH by assumption.
    destruct (rssi_is v y); reflexivity.
Qed.

Lemma fold_insert_stable v d acc :
  Sorted rssi_ge acc ->
  filter (rssi_is v) (fold_left (fun acc x => Mesh.insert_desc x acc) d acc)
  = filter (rssi_is v) acc ++ filter (rssi_is v) d.
Proof.
  revert acc; induction d as [|x d IH]; intros acc Hs; simpl.
  - rewrite app_nil_r. reflexivity.
  - rewrite IH by (apply insert_desc_sorted, Hs).
    rewrite insert_desc_stable by exact Hs.
    rewrite <- app_assoc. f_equal.
    destruct (rssi_is v x) eqn:Ex; cbn [filter app]; rewrite Ex; reflexivity.
Qed.

Lemma sort_stable v d :
  filter (rssi_is v) (Mesh.sort_by_rssi_desc d) = filter (rssi_is v) d.
Proof. unfold Mesh.sort_by_rssi_desc. rewrite fold_insert_stable; auto. Qed.

Lemma filter_perm (f : entry -> bool) l l' :
  Permutation l l' -> Permutation (filter f l) (filter f l').
Proof.
  induction 1; simpl; auto.
  - destruct (f x); auto.
  - destruct (f x), (f y); auto. apply perm_swap.
  - eapply Permutation_trans; eauto.
Qed.

Lemma filter_sorted (f : entry -> bool) l :
  Sorted rssi_ge l -> Sorted rssi_ge (filter f l).
Proof.
  intros Hs. apply Sorted_StronglySorted in Hs; [|exact rssi_ge_trans].
  apply StronglySorted_Sorted.
  induction Hs as [|x l Hl IH Hall]; simpl; [constructor|].
  destruct (f x); auto. constructor; auto.
  apply Forall_forall. intros e He. apply filter_In in He.
  eapply Forall_forall in Hall; [exact Hall | tauto].
Qed.

Lemma filter_comm (f g : entry -> bool) l :
  filter f (filter g l) = filter g (filter f l).
Proof.
  induction l as [|x l IH]; simpl; auto.
  destruct (g x) eqn:Eg, (f x) eqn:Ef; simpl; rewrite ?Eg, ?Ef, IH; auto.
Qed.

Lemma connectable_ranked d :
  (forall e, In e (Mesh.get_connectable_devices d)
             <-> In e d /\ Mesh.rssi_floor < Mesh.rssi (snd e))
  /\ Sorted rssi_ge (Mesh.get_connectable_devices d)
  /\ (forall v, filter (rssi_is v) (Mesh.get_connectable_devices d)
                = filter (rssi_is v) (filter above_floor d)).
Proof.
  unfold Mesh.get_connectable_devices. split; [|split].
  - intros e. rewrite filter_In, Z.ltb_lt. split.
    + intros [Hin Hr]. split; [|exact Hr].
      eapply Permutation_in; [apply sort_perm | exact Hin].
    + intros [Hin Hr]. split; [|exact Hr].
      eapply Permutation_in; [symmetry; apply sort_perm | exact Hin].
  - apply filter_sorted, sort_sorted.
  - intros v. change (fun e : entry => Mesh.rssi_floor <? Mesh.rssi (snd e)) with above_floor.
    rewrite filter_comm, sort_stable. apply filter_comm.
Qed.

Lemma three_devices_candidates k1 k2 k3 i1 i2 i3 d :
  Mesh.rssi i1 = -40 -> Mesh.rssi i2 = -90 -> Mesh.rssi i3 = -999999 ->
  Permutation d [(k1, i1); (k2, i2); (k3, i3)] ->
  Mesh.get_connectable_devices d = [(k1, i1); (k2, i2)].
Proof.
  intros H1 H2 H3 Hp.
  assert (Hperm : Permutation (Mesh.get_connectable_devices d) [(k1, i1); (k2, i2)]).
  { unfold Mesh.get_connectable_devices.
    change (fun e : entry => Mesh.rssi_floor <? Mesh.rssi (snd e)) with above_floor.
    rewrite (filter_perm above_floor _ _ (sort_perm d)), (filter_perm above_floor _ _ Hp).
    unfold above_floor, Mesh.rssi_floor. simpl. rewrite H1, H2, H3. reflexivity. }
  pose proof (proj1 (proj2 (connectable_ranked d))) as Hs.
  apply Permutation_sym, Permutation_length_2_inv in Hperm as [E | E]; [exact E|].
  rewrite E in Hs. inversion Hs as [|? ? _ Hhd]; subst.
  inversion Hhd as [|? ? Hge]; subst. unfold rssi_ge in Hge. simpl in Hge. lia.
Qed.

End Ranking.

(** C7: the candidate list holds exactly the directory entries above the
    rssi floor, ranked by decreasing rssi, entries of equal rssi keeping
    their directory order.  With no device connected and devices at rssi
    -40, -90 and -999999 (the first two with a MAC), [_async_connect_device]
    tries the -40 device first, then the -90 device, and never the
    -999999 one.  It tries the -90 device even after a successful connect
    to the -40 one: the [is_connected()] read that follows the connect
    raises [AttributeError], which the loop catches before it stops the
    device.  The last device that connected stays the connected one. *)
Theorem connectable_candidates_ranked :
  (forall d,
     Permutation (Mesh.get_connectable_devices d) (filter above_floor d)
     /\ Sorted rssi_ge (Mesh.get_connectable_devices d)
     /\ (forall v, filter (rssi_is v) (Mesh.get_connectable_devices d)
                   = filter (rssi_is v) (filter above_floor d)))
  /\ (forall now (try_connect : Z -> bool) k1 k2 k3 i1 i2 i3 d s,
        Mesh.rssi i1 = -40 -> Mesh.rssi i2 = -90 -> Mesh.rssi i3 = -999999 ->
        Mesh.dmac i1 <> None -> Mesh.dmac i2 <> None ->
        Permutation d [(k1, i1); (k2, i2); (k3, i3)] ->
        Mesh.cs_connected s = None ->
        exists s', Mesh.async_connect_device now try_connect d s = Ok s'
          /\ Mesh.cs_log s'
             = Mesh.cs_log s
               ++ [Mesh.TryConnect k1; Mesh.StopDevice k1; Mesh.TryConnect k2; Mesh.StopDevice k2]
               ++ (if try_connect k2 then [Mesh.SetStatusCallback k2]
                   else if try_connect k1 then [Mesh.SetStatusCallback k1] else [])
          /\ Mesh.cs_connected s'
             = (if try_connect k2 then Some k2 else if try_connect k1 then Some k1 else None)).
Proof.
  split.
  - intros d. destruct (connectable_ranked d) as [_ [Hs Hst]].
    split; [|split; assumption].
    unfold Mesh.get_connectable_devices.
    change (fun e : entry => Mesh.rssi_floor <? Mesh.rssi (snd e)) with above_floor.
    apply filter_perm, sort_perm.
  - intros now try_connect k1 k2 k3 i1 i2 i3 d s H1 H2 H3 Hm1 Hm2 Hp Hc.
    destruct s as [c0 cd0 lc0 lr0 log0]. cbn in Hc. subst c0.
    unfold Mesh.async_connect_device. cbn [Mesh.cs_connected Mesh.device_set Mesh.is_connected bind].
    rewrite (three_devices_candidates k1 k2 k3 i1 i2 i3 d H1 H2 H3 Hp).
    cbn [Mesh.connect_loop].
    destruct (Mesh.dmac i1); [|congruence].
    destruct (Mesh.dmac i2); [|congruence].
    destruct (try_connect k1), (try_connect k2); cbn;
      (eexists; split; [reflexivity|]); cbn;
      (split; [rewrite <- !app_assoc; reflexivity | reflexivity]).
Qed.

Lemma connectable_candidates_ranked_witness :
  exists s', Mesh.async_connect_device 0 (fun k => k =? 1) test_directory test_conn_state = Ok s'
    /\ Mesh.cs_log s'
       = [] ++ [Mesh.TryConnect 1; Mesh.StopDevice 1; Mesh.TryConnect 2; Mesh.StopDevice 2]
         ++ [Mesh.SetStatusCallback 1]
    /\ Mesh.cs_connected s' = Some 1.
Proof.
  apply (proj2 connectable_candidates_ranked 0 (fun k => k =? 1) 1 2 3
           (test_device "kitchen"%string 1 (-40)) (test_device "bedroom"%string 2 (-90))
           (test_device "hall"%string 3 (-999999)) test_directory test_conn_state);
    [reflexivity | reflexivity | reflexivity | discriminate | discriminate | | reflexivity].
  apply Permutation_cons_append.
Defined.

(** ** Scheduler: status frames *)

Lemma parse_status_shape data st :
  Light.parse_status data = Ok (Some st) ->
  exists k mode wb wt cb r g b, st = Light.status_dict k mode wb wt cb r g b.
Proof.
  unfold Light.parse_status. intros H.
  repeat match type of H with
  | context [if ?c then _ else _] => destruct c
  | context [Light.byte_at ?i ?d] =>
      destruct (Light.byte_at i d); cbn [bind] in H; try discriminate H
  end;
  try discriminate H; injection H as <-; do 8 eexists; reflexivity.
Qed.

Lemma status_dict_mesh_id k mode wb wt cb r g b :
  Light.dict_get "mesh_id"%string (Light.status_dict k mode wb wt cb r g b) = Some (Light.VInt k).
Proof. reflexivity. Qed.

Lemma status_dict_type k mode wb wt cb r g b :
  Light.dict_get "type"%string (Light.status_dict k mode wb wt cb r g b) = None.
Proof. reflexivity. Qed.

(** C8: every status dictionary [parseStatusResult] passes on (a 0xDB or
    0xDC frame) carries an integer mesh id and no ["type"] key: for an
    unregistered mesh id [mesh_status_callback] ignores it, for a
    registered one it raises [KeyError] on [status['type']] before the
    callback is called or the directory is updated. *)
Theorem decoded_frame_registered_raises now data m st :
  Light.parse_status data = Ok (Some st) ->
  exists k,
    Light.dict_get "mesh_id"%string st = Some (Light.VInt k)
    /\ (Mesh.dir_get k (Mesh.devices m) = None -> Mesh.on_decoded_frame now data m = Ok m)
    /\ (forall i, Mesh.dir_get k (Mesh.devices m) = Some i ->
        Mesh.on_decoded_frame now data m = Raise KeyError).
Proof.
  intros H. destruct (parse_status_shape data st H)
    as [k [mode [wb [wt [cb [r [g [b ->]]]]]]]].
  exists k. split; [apply status_dict_mesh_id|].
  unfold Mesh.on_decoded_frame. rewrite H. cbn [bind].
  unfold Mesh.mesh_status_callback. rewrite status_dict_mesh_id.
  split.
  - intros Hn. rewrite Hn. reflexivity.
  - intros i Hi. rewrite Hi, status_dict_type. reflexivity.
Qed.

Lemma decoded_frame_registered_raises_witness :
  Mesh.on_decoded_frame 0 test_frame test_mesh = Raise KeyError.
Proof.
  destruct (decoded_frame_registered_raises 0 test_frame test_mesh _ eq_refl)
    as [k [Hk [_ Hreg]]].
  vm_compute in Hk. injection Hk as <-.
  eapply Hreg. reflexivity.
Defined.

(** ** Scheduler: the unavailable sweep *)

Lemma disable_all_spec d log :
  Forall2 swept d (fst (Mesh.disable_all d log))
  /\ snd (Mesh.disable_all d log)
     = log ++ map (fun e => (Mesh.callback (snd e), Mesh.state_none)) (filter has_update d).
Proof.
  revert log; induction d as [|[k i] d IH]; intros log; cbn [Mesh.disable_all].
  - split; [constructor | cbn; symmetry; apply app_nil_r].
  - destruct (Mesh.last_update i) eqn:E.
    + specialize (IH (log ++ [(Mesh.callback i, Mesh.state_none)])).
      destruct (Mesh.disable_all d (log ++ [(Mesh.callback i, Mesh.state_none)]))
        as [d'' log'].
      cbn [fst snd] in *. destruct IH as [IH1 IH2]. split.
      * constructor; [|exact IH1].
        unfold swept. cbn [fst snd]. rewrite E. repeat split.
      * rewrite IH2. cbn [filter].
        replace (has_update (k, i)) with true by (unfold has_update; cbn; rewrite E; reflexivity).
        cbn [map snd]. rewrite <- app_assoc. reflexivity.
    + specialize (IH log).
      destruct (Mesh.disable_all d log) as [d'' log'].
      cbn [fst snd] in *. destruct IH as [IH1 IH2]. split.
      * constructor; [|exact IH1].
        unfold swept. cbn [fst snd]. rewrite E. repeat split.
      * rewrite IH2. cbn [filter].
        replace (has_update (k, i)) with false by (unfold has_update; cbn; rewrite E; reflexivity).
        reflexivity.
Qed.

(** C9: the sweep keeps the directory's keys and order; on each device
    with a recorded [last_update] it clears [last_update] and sets
    [update_count] to 0, keeping mac, name, callback, rssi and
    [status_request_count]; devices with no [last_update] are left as
    they are; and each device with a [last_update], in directory order,
    gets exactly one [{'state': None}] callback. *)
Theorem disable_sweep_effect m :
  Forall2 swept (Mesh.devices m) (Mesh.devices (Mesh.update_status_of_all_devices_to_disabled m))
  /\ Mesh.cb_log (Mesh.update_status_of_all_devices_to_disabled m)
     = Mesh.cb_log m
       ++ map (fun e => (Mesh.callback (snd e), Mesh.state_none))
              (filter has_update (Mesh.devices m)).
Proof.
  unfold Mesh.update_status_of_all_devices_to_disabled.
  pose proof (disable_all_spec (Mesh.devices m) (Mesh.cb_log m)) as H.
  destruct (Mesh.disable_all (Mesh.devices m) (Mesh.cb_log m)) as [d log].
  exact H.
Qed.

(** ** Command queue worker *)

Lemma attempts_app a b :
  Worker.attempts (a ++ b) = (Worker.attempts a + Worker.attempts b)%nat.
Proof. unfold Worker.attempts. rewrite filter_app, length_app. reflexivity. Qed.

Lemma retry_no_completion env allow n r :
  existsb Worker.is_completion (fst (Worker.retry_loop env allow n r)) = false.
Proof.
  revert n; induction r as [|r IH]; intros n; cbn [Worker.retry_loop];
    destruct (Worker.call_command allow (env n)) as [[ok disc]|e]; try reflexivity.
  - destruct ok, disc; reflexivity.
  - destruct ok; [destruct disc; reflexivity|].
    specialize (IH (S n)).
    destruct (Worker.retry_loop env allow (S n) r) as [ev' e]. cbn [fst] in *.
    rewrite existsb_app, IH. destruct disc; reflexivity.
Qed.

Lemma retry_all_false env allow n r :
  (forall m, exists d, Worker.call_command allow (env m) = Ok (false, d)) ->
  snd (Worker.retry_loop env allow n r) = None
  /\ Worker.attempts (fst (Worker.retry_loop env allow n r)) = S r.
Proof.
  intros H. revert n; induction r as [|r IH]; intros n; cbn [Worker.retry_loop];
    destruct (H n) as [d Ed]; rewrite Ed.
  - destruct d; split; reflexivity.
  - specialize (IH (S n)).
    destruct (Worker.retry_loop env allow (S n) r) as [ev' e]. cbn [fst snd] in *.
    destruct IH as [-> IH]. split; [reflexivity|].
    rewrite attempts_app, IH. destruct d; reflexivity.
Qed.

Lemma call_failing_false a :
  failing_attempt a = true -> exists d, Worker.call_command false a = Ok (false, d).
Proof.
  destruct a as [[[|]|e] [|[r|]]]; unfold failing_attempt; cbn; intros H;
    try discriminate H; eexists; reflexivity.
Qed.

Lemma call_not_connected allow a :
  Worker.a_connected a = Ok false -> Worker.call_command allow a = Ok (false, false).
Proof. intros H. unfold Worker.call_command. rewrite H. reflexivity. Qed.

Lemma call_connected_allowed a :
  Worker.a_connected a = Ok true -> exists d, Worker.call_command true a = Ok (true, d).
Proof.
  intros H. unfold Worker.call_command. rewrite H. cbn [bind negb].
  destruct (Worker.a_send a) as [|[r|]]; eexists; reflexivity.
Qed.

(** C2 (amended): for a command whose every run of [_call_command] fails
    (no connection, or a command call that raises or returns [None]):
    with [allow_to_fail] false [_call_command] is called 4 times; with
    [allow_to_fail] true it is called 4 times when no connection is ever
    made and once when the connection is made; in every case the
    command's callback is then called exactly once, as the last step, so
    the submitter returns normally and is told of no failure. *)
Theorem process_command_always_failing env :
  (forall n, failing_attempt (env n) = true) ->
  Worker.attempts (Worker.process_command env false) = 4%nat
  /\ ((forall n, Worker.a_connected (env n) = Ok false) ->
      Worker.attempts (Worker.process_command env true) = 4%nat)
  /\ (Worker.a_connected (env 0%nat) = Ok true ->
      Worker.attempts (Worker.process_command env true) = 1%nat)
  /\ (forall allow, exists ev,
        Worker.process_command env allow = ev ++ [Worker.CompletionCallback]
        /\ existsb Worker.is_completion ev = false)
  /\ (forall allow, Worker.submitter_result (Worker.process_command env allow) = Some (Ok tt)).
Proof.
  intros Hf.
  assert (Hfour : forall allow,
            (forall m, exists d, Worker.call_command allow (env m) = Ok (false, d)) ->
            Worker.attempts (Worker.process_command env allow) = 4%nat).
  { intros allow H. unfold Worker.process_command.
    destruct (retry_all_false env allow 0 3 H) as [He Ha].
    destruct (Worker.retry_loop env allow 0 3) as [ev e]. cbn [fst snd] in *.
    subst e. rewrite attempts_app, Ha. reflexivity. }
  assert (Hshape : forall allow, exists ev,
            Worker.process_command env allow = ev ++ [Worker.CompletionCallback]
            /\ existsb Worker.is_completion ev = false).
  { intros allow. unfold Worker.process_command.
    pose proof (retry_no_completion env allow 0 3) as Hn.
    destruct (Worker.retry_loop env allow 0 3) as [ev e]. cbn [fst] in Hn.
    exists (ev ++ match e with Some _ => [Worker.Disconnect] | None => [] end).
    rewrite <- app_assoc. split; [reflexivity|].
    rewrite existsb_app, Hn. destruct e; reflexivity. }
  split; [|split; [|split; [|split]]].
  - apply Hfour. intros m. apply call_failing_false, Hf.
  - intros Hc. apply Hfour. intros m. exists false. apply call_not_connected, Hc.
  - intros Hc. unfold Worker.process_command. cbn [Worker.retry_loop].
    destruct (call_connected_allowed (env 0%nat) Hc) as [d Ed]. rewrite Ed.
    destruct d; reflexivity.
  - exact Hshape.
  - intros allow. destruct (Hshape allow) as [ev [-> _]].
    unfold Worker.submitter_result. rewrite existsb_app. cbn [existsb Worker.is_completion].
    rewrite orb_true_r. reflexivity.
Qed.

Lemma process_command_always_failing_witness :
  Worker.attempts (Worker.process_command connected_no_reply false) = 4%nat
  /\ Worker.attempts (Worker.process_command connected_no_reply true) = 1%nat.
Proof.
  destruct (process_command_always_failing connected_no_reply) as [H4 [_ [H1 _]]];
    [intros n; reflexivity |].
  split; [exact H4 | apply H1; reflexivity].
Defined.

(** C2: a command that never gets a connection is run 4 times, not 3,
    also with [allow_to_fail] true, and its submitter gets no failure. *)
Lemma never_connected_four_runs :
  Worker.attempts (Worker.process_command never_connected false) = 4%nat
  /\ Worker.attempts (Worker.process_command never_connected true) = 4%nat
  /\ Worker.submitter_result (Worker.process_command never_connected false) = Some (Ok tt).
Proof. vm_compute. repeat split. Qed.

(** ** Concrete instances of the codec and session theorems *)

Lemma make_command_packet_layout_witness :
  exists p, Packet.make_command_packet test_key test_mac 7 208 [1] [9; 9; 9] = Ok p
            /\ length p = 20%nat.
Proof.
  destruct (make_command_packet_layout test_key test_mac test_mac_bytes 7 208 [1] [9; 9; 9])
    as [check [enc [p [Hp [_ [_ [_ [_ Hl]]]]]]]];
    [reflexivity | vm_compute; reflexivity | lia | lia | simpl; lia | reflexivity |].
  exists p. split; [exact Hp | rewrite Hl; reflexivity].
Defined.

(** C3: 11 data bytes give a 21-byte packet. *)
Lemma command_packet_eleven_data_bytes :
  Packet.make_command_packet test_key test_mac 7 229 [1; 2; 3; 4; 5; 6; 7; 8; 9; 10; 11] [9; 9; 9]
  = Ok [9; 9; 9; 119; 181; 90; 13; 87; 188; 211; 43; 112; 196; 81; 9; 188;
        168; 46; 6; 203; 137]
  /\ length [9; 9; 9; 119; 181; 90; 13; 87; 188; 211; 43; 112; 196; 81; 9; 188;
             168; 46; 6; 203; 137] = 21%nat.
Proof. split; [vm_compute; reflexivity | reflexivity]. Qed.

Lemma command_packet_roundtrip_witness :
  exists p pl,
    Packet.make_command_packet test_key test_mac 7 208 [1] [9; 9; 9] = Ok p
    /\ Packet.crypt_payload test_key (command_nonce test_mac_bytes [9; 9; 9]) (skipn 5 p) = Ok pl
    /\ slice 5 6 pl = [1].
Proof.
  destruct (command_packet_roundtrip test_key test_mac test_mac_bytes 7 208 [1] [9; 9; 9])
    as [p [pl [check [Hp [Hpl [_ [_ [_ [_ [_ Hd]]]]]]]]]];
    [reflexivity | vm_compute; reflexivity | lia | lia | simpl; lia | reflexivity |].
  exists p, pl. split; [exact Hp | split; [exact Hpl | exact Hd]].
Defined.

(** C1: [decrypt_packet] returns [None] on a packet [make_command_packet]
    built. *)
Lemma command_packet_not_decrypted :
  Packet.make_command_packet test_key test_mac 7 208 [1] [9; 9; 9]
  = Ok [9; 9; 9; 94; 224; 90; 13; 98; 188; 211; 43; 114; 199; 85; 12; 186; 175; 38; 15; 193]
  /\ Packet.decrypt_packet test_key test_mac
       [9; 9; 9; 94; 224; 90; 13; 98; 188; 211; 43; 114; 199; 85; 12; 186; 175; 38; 15; 193]
     = Ok None.
Proof. split; vm_compute; reflexivity. Qed.

Lemma crypt_payload_involution_witness :
  exists enc, Packet.crypt_payload test_key [1; 2; 3] [10; 20; 30] = Ok enc
              /\ Packet.crypt_payload test_key [1; 2; 3] enc = Ok [10; 20; 30].
Proof.
  destruct (crypt_payload_involution test_key [1; 2; 3] [10; 20; 30]) as [enc [H1 [_ H2]]];
    [reflexivity | simpl; lia | simpl; lia |].
  exists enc. split; assumption.
Defined.

Lemma decrypt_packet_total_witness :
  Packet.decrypt_packet test_key test_mac (repeat 0 20) = Ok None
  /\ Packet.decrypt_packet test_key test_mac (repeat 0 300) = Raise ValueError.
Proof.
  destruct (decrypt_packet_total test_key test_mac test_mac_bytes (repeat 0 20)) as [Hs _];
    [reflexivity | vm_compute; reflexivity |].
  destruct (decrypt_packet_total test_key test_mac test_mac_bytes (repeat 0 300)) as [_ Hl];
    [reflexivity | vm_compute; reflexivity |].
  split; [|apply Hl; rewrite repeat_length; lia].
  destruct Hs as [payload [check [Hp [Hc [Hnone _]]]]]; [rewrite repeat_length; lia |].
  apply Hnone.
  vm_compute in Hp. injection Hp as <-.
  vm_compute in Hc. injection Hc as <-.
  vm_compute. discriminate.
Defined.

(** C4: a 263-byte packet makes [decrypt_packet] raise [ValueError]. *)
Lemma decrypt_packet_263_raises :
  Packet.decrypt_packet test_key test_mac (repeat 0 263) = Raise ValueError.
Proof. vm_compute. reflexivity. Qed.

Lemma connect_pairing_reply_witness :
  exists l' tr,
    Light.connect test_transport [1; 2; 3; 4; 5; 6; 7; 8] test_light = Ok (true, l', tr).
Proof.
  destruct (connect_pairing_reply test_transport [1; 2; 3; 4; 5; 6; 7; 8] test_light
              [13; 1; 2; 3; 4; 5; 6; 7; 8]) as [ok [l' [tr [Hc [Hok _]]]]];
    [simpl; lia | simpl; lia | reflexivity | reflexivity | reflexivity | reflexivity
    | reflexivity | discriminate |].
  assert (ok = true) as -> by (apply Hok; reflexivity).
  exists l', tr. exact Hc.
Defined.

(** ** CRC-16 of [packetutils.crc16] *)

Lemma land1_zero x : Z.testbit x 0 = false -> Z.land x 1 = 0.
Proof.
  intros H. apply Z.bits_inj'. intros n Hn.
  rewrite Z.land_spec, Z.bits_0.
  destruct (Z.eq_dec n 0) as [->|Hne]; [rewrite H; reflexivity|].
  rewrite (Z.bits_above_log2 1 n) by (cbn; lia). apply andb_false_r.
Qed.

Lemma log2_lt16 a : 0 <= a < 65536 -> Z.log2 a < 16.
Proof.
  intros Ha. destruct (Z.eq_dec a 0) as [->|Hne]; [reflexivity|].
  apply Z.log2_lt_pow2; [lia | exact (proj2 Ha)].
Qed.

Lemma lxor_lt16 a b : 0 <= a < 65536 -> 0 <= b < 65536 -> 0 <= Z.lxor a b < 65536.
Proof.
  intros Ha Hb. assert (Hn : 0 <= Z.lxor a b) by (apply Z.lxor_nonneg; lia).
  split; [exact Hn|].
  destruct (Z.eq_dec (Z.lxor a b) 0) as [->|Hne]; [lia|].
  change 65536 with (2 ^ 16). apply Z.log2_lt_pow2; [lia|].
  pose proof (Z.log2_lxor a b (proj1 Ha) (proj1 Hb)).
  pose proof (log2_lt16 a Ha). pose proof (log2_lt16 b Hb). lia.
Qed.

Lemma crc16_bit_range c v :
  0 <= c < 65536 -> 0 <= fst (Packet.crc16_bit (c, v)) < 65536.
Proof.
  intros Hc. unfold Packet.crc16_bit. cbn [fst].
  apply lxor_lt16.
  - rewrite Z.shiftr_div_pow2 by lia. change (2 ^ 1) with 2.
    split; [apply Z.div_pos | apply Z.div_lt_upper_bound]; lia.
  - destruct (Z.to_nat (Z.land (Z.lxor c v) 1)) as [|[|k]]; cbn; [lia | lia |].
    destruct k; cbn; lia.
Qed.

Lemma crc16_iter_range k c v :
  0 <= c < 65536 -> 0 <= fst (Nat.iter k Packet.crc16_bit (c, v)) < 65536.
Proof.
  intros Hc. induction k as [|k IH]; [exact Hc|].
  rewrite Nat.iter_succ. destruct (Nat.iter k Packet.crc16_bit (c, v)) as [c' v'].
  apply crc16_bit_range, IH.
Qed.

Lemma crc16_fold_range l acc :
  0 <= acc < 65536 -> 0 <= fold_left Packet.crc16_byte l acc < 65536.
Proof.
  revert acc; induction l as [|x l IH]; intros acc Ha; [exact Ha|].
  cbn [fold_left]. apply IH. apply crc16_iter_range, Ha.
Qed.

(** Eight steps on a register whose low bits agree with the byte's
    never add the polynomial: they shift both right. *)
Lemma crc16_iter_equal_bits k : forall c v,
  (forall j, 0 <= j < Z.of_nat k -> Z.testbit c j = Z.testbit v j) ->
  Nat.iter k Packet.crc16_bit (c, v) = (Z.shiftr c (Z.of_nat k), Z.shiftr v (Z.of_nat k)).
Proof.
  induction k as [|k IH]; intros c v H.
  - cbn [Nat.iter Z.of_nat]. rewrite !Z.shiftr_0_r. reflexivity.
  - rewrite Nat.iter_succ, IH by (intros j Hj; apply H; lia).
    unfold Packet.crc16_bit.
    rewrite land1_zero.
    + cbn [Z.to_nat nth]. rewrite Z.lxor_0_r, !Z.shiftr_shiftr by lia.
      replace (Z.of_nat k + 1) with (Z.of_nat (S k)) by lia. reflexivity.
    + rewrite Z.lxor_spec, !Z.shiftr_spec by lia.
      rewrite (H (0 + Z.of_nat k)) by lia. apply xorb_nilpotent.
Qed.

Lemma crc16_byte_equal_bits c v :
  (forall j, 0 <= j < 8 -> Z.testbit c j = Z.testbit v j) ->
  Packet.crc16_byte c v = c / 256.
Proof.
  intros H. unfold Packet.crc16_byte.
  rewrite crc16_iter_equal_bits by (intros j Hj; apply H; lia).
  cbn [fst]. rewrite Z.shiftr_div_pow2 by lia. reflexivity.
Qed.

Lemma crc16_range data : 0 <= Packet.crc16 data < 65536.
Proof. apply crc16_fold_range. lia. Qed.

Lemma crc16_append data :
  exists crc, Packet.pack_u16_le (Packet.crc16 data) = Ok crc
              /\ length crc = 2%nat
              /\ Packet.crc16 (data ++ crc) = 0.
Proof.
  pose proof (crc16_range data) as Hr. set (c := Packet.crc16 data) in *.
  exists [c mod 256; c / 256]. rewrite pack_u16_le_ok by lia.
  split; [reflexivity | split; [reflexivity|]].
  unfold Packet.crc16. rewrite fold_left_app. fold (Packet.crc16 data). fold c.
  cbn [fold_left].
  rewrite (crc16_byte_equal_bits c (c mod 256)).
  - rewrite crc16_byte_equal_bits by reflexivity.
    rewrite Z.div_div by lia. apply Z.div_small. lia.
  - intros j Hj. change 256 with (2 ^ 8). rewrite Z.mod_pow2_bits_low by lia. reflexivity.
Qed.

(** ** Firmware upload *)

Lemma chunks16_props n : forall b, (length b <= 16 * n)%nat ->
  (16 * length (chunks16 b) < length b + 16)%nat
  /\ (length b <= 16 * length (chunks16 b))%nat
  /\ Forall (fun c => c <> [] /\ (length c <= 16)%nat) (chunks16 b)
  /\ exists k, concat (map Firmware.ljust_ff (chunks16 b)) = b ++ repeat 255 k.
Proof.
  induction n as [|n IH]; intros b Hb.
  - destruct b; [|simpl in Hb; lia].
    repeat split; cbn; try lia; [constructor|]. exists O. reflexivity.
  - destruct b as [|x b'] eqn:Eb.
    { repeat split; cbn; try lia; [constructor|]. exists O. reflexivity. }
    rewrite <- Eb in *. assert (Hne : b <> []) by (rewrite Eb; discriminate).
    assert (Hpos : (0 < length b)%nat) by (rewrite Eb; cbn; lia).
    rewrite chunks16_cons by exact Hne.
    destruct (IH (skipn 16 b)) as [H1 [H2 [H3 [k Hk]]]]; [rewrite length_skipn; lia|].
    rewrite length_skipn in H1, H2. cbn [length].
    split; [lia|]. split; [lia|]. split.
    + constructor; [|exact H3]. split.
      * rewrite Eb. discriminate.
      * rewrite length_firstn. lia.
    + cbn [map concat]. destruct (Nat.le_gt_cases 16 (length b)) as [Hl | Hl].
      * exists k. rewrite Hk. unfold Firmware.ljust_ff.
        rewrite length_firstn, (proj2 (Nat.sub_0_le _ _)) by lia. cbn [repeat].
        rewrite app_nil_r, app_assoc, firstn_skipn. reflexivity.
      * exists (16 - length b)%nat. rewrite skipn_all2 by lia. rewrite chunks16_nil.
        cbn [map concat]. unfold Firmware.ljust_ff.
        rewrite firstn_all2 by lia. apply app_nil_r.
Qed.

Lemma data_packet_ok count chunk :
  0 <= count <= 65535 ->
  exists crc, Firmware.data_packet count chunk
              = Ok ([count mod 256; count / 256] ++ Firmware.ljust_ff chunk ++ crc)
              /\ length crc = 2%nat
              /\ Packet.crc16 ([count mod 256; count / 256] ++ Firmware.ljust_ff chunk ++ crc) = 0.
Proof.
  intros Hc. unfold Firmware.data_packet. rewrite pack_u16_le_ok by exact Hc. cbn [bind].
  destruct (crc16_append ([count mod 256; count / 256] ++ Firmware.ljust_ff chunk))
    as [crc [Hp [Hl Hz]]].
  rewrite Hp. cbn [bind]. exists crc. rewrite <- !app_assoc in *. auto.
Qed.

Lemma last_packet_ok count :
  0 <= count <= 65535 ->
  exists crc, Firmware.last_packet count = Ok ([count mod 256; count / 256] ++ crc)
              /\ length crc = 2%nat
              /\ Packet.crc16 ([count mod 256; count / 256] ++ crc) = 0.
Proof.
  intros Hc. unfold Firmware.last_packet. rewrite pack_u16_le_ok by exact Hc. cbn [bind].
  destruct (crc16_append [count mod 256; count / 256]) as [crc [Hp [Hl Hz]]].
  rewrite Hp. cbn [bind]. exists crc. auto.
Qed.

Lemma ljust_ff_length c : (length c <= 16)%nat -> length (Firmware.ljust_ff c) = 16%nat.
Proof. intros H. unfold Firmware.ljust_ff. rewrite length_app, repeat_length. lia. Qed.

Lemma slice_2_18 (h c t : bytes) :
  length h = 2%nat -> length c = 16%nat -> slice 2 18 (h ++ c ++ t) = c.
Proof.
  intros Hh Hc. unfold slice. rewrite skipn_app, skipn_all2 by lia.
  rewrite Hh. cbn [Nat.sub skipn app].
  rewrite firstn_app, Hc, Nat.sub_diag, firstn_all2 by lia. apply app_nil_r.
Qed.

Lemma firstn_2_app (h t : bytes) : length h = 2%nat -> firstn 2 (h ++ t) = h.
Proof.
  intros Hh. rewrite firstn_app, Hh, Nat.sub_diag, firstn_all2 by lia. apply app_nil_r.
Qed.

Lemma send_loop_ok cs : forall n,
  0 <= n -> n + Z.of_nat (length cs) <= 65535 ->
  Forall (fun c => (length c <= 16)%nat) cs ->
  snd (Firmware.send_loop n cs) = Ok tt
  /\ length (fst (Firmware.send_loop n cs)) = S (length cs)
  /\ (forall i, (i < S (length cs))%nat ->
        let p := nth i (fst (Firmware.send_loop n cs)) [] in
        Packet.crc16 p = 0
        /\ firstn 2 p = [(n + Z.of_nat i) mod 256; (n + Z.of_nat i) / 256]
        /\ length p = (if (i <? length cs)%nat then 20 else 4)%nat)
  /\ concat (map (slice 2 18) (removelast (fst (Firmware.send_loop n cs))))
     = concat (map Firmware.ljust_ff cs).
Proof.
  induction cs as [|c cs IH]; intros n Hn Hlen Hall.
  - cbn [Firmware.send_loop length] in *.
    destruct (last_packet_ok n) as [crc [Hp [Hl Hz]]]; [lia|]. rewrite Hp.
    cbn [fst snd]. split; [reflexivity|]. split; [reflexivity|]. split; [|reflexivity].
    intros i Hi. assert (i = O) as -> by lia. cbn [nth]. rewrite Z.add_0_r.
    split; [exact Hz|]. split; [apply firstn_2_app; reflexivity|].
    rewrite length_app, Hl. reflexivity.
  - inversion Hall as [|? ? Hc Hall']; subst.
    cbn [Firmware.send_loop length] in *.
    destruct (data_packet_ok n c) as [crc [Hp [Hl Hz]]]; [lia|]. rewrite Hp.
    destruct (IH (n + 1)) as [IH1 [IH2 [IH3 IH4]]]; [lia | lia | exact Hall' |].
    destruct (Firmware.send_loop (n + 1) cs) as [ps r]. cbn [fst snd] in *.
    split; [exact IH1|]. split; [cbn [length]; lia|]. split.
    + intros [|i] Hi; cbn [nth].
      * rewrite Z.add_0_r. split; [exact Hz|]. split; [apply firstn_2_app; reflexivity|].
        rewrite !length_app, ljust_ff_length, Hl by exact Hc. reflexivity.
      * destruct (IH3 i) as [A [B C]]; [lia|]. split; [exact A|]. split.
        -- replace (n + Z.of_nat (S i)) with (n + 1 + Z.of_nat i) by lia. exact B.
        -- rewrite C. reflexivity.
    + destruct ps as [|p ps']; [cbn in IH2; lia|].
      change (removelast ((([n mod 256; n / 256] ++ Firmware.ljust_ff c ++ crc)) :: p :: ps'))
        with ((([n mod 256; n / 256] ++ Firmware.ljust_ff c ++ crc)) :: removelast (p :: ps')).
      cbn [map concat]. rewrite IH4. f_equal.
      apply slice_2_18; [reflexivity | apply ljust_ff_length, Hc].
Qed.

Lemma send_loop_overflow cs : forall n,
  0 <= n <= 65536 -> 65536 <= n + Z.of_nat (length cs) ->
  Firmware.send_loop n cs = (fst (Firmware.send_loop n cs), Raise StructError)
  /\ length (fst (Firmware.send_loop n cs)) = Z.to_nat (65536 - n).
Proof.
  induction cs as [|c cs IH]; intros n Hn Hlen.
  - cbn [length Z.of_nat] in Hlen. assert (n = 65536) as -> by lia.
    split; reflexivity.
  - cbn [Firmware.send_loop length].
    destruct (Z.eq_dec n 65536) as [->|Hne]; [split; reflexivity|].
    destruct (data_packet_ok n c) as [crc [Hp _]]; [lia|]. rewrite Hp.
    destruct (IH (n + 1)) as [IH1 IH2]; [lia | cbn [length] in Hlen; lia |].
    destruct (Firmware.send_loop (n + 1) cs) as [ps r]. cbn [fst snd] in *.
    injection IH1 as ->. split; [reflexivity|]. cbn [length]. rewrite IH2. lia.
Qed.

Lemma send_firmware_run (key fw : bytes) :
  key <> [] -> fw <> [] ->
  Firmware.send_firmware (Some key) fw = Firmware.send_loop 0 (chunks16 fw).
Proof.
  intros Hk Hf. unfold Firmware.send_firmware.
  destruct key; [congruence|]. destruct fw; [congruence|]. reflexivity.
Qed.

Lemma chunks16_fw (fw : bytes) :
  (16 * length (chunks16 fw) < length fw + 16)%nat
  /\ (length fw <= 16 * length (chunks16 fw))%nat
  /\ Forall (fun c => (length c <= 16)%nat) (chunks16 fw)
  /\ exists k, concat (map Firmware.ljust_ff (chunks16 fw)) = fw ++ repeat 255 k.
Proof.
  destruct (chunks16_props (length fw) fw) as [A [B [C D]]]; [lia|].
  split; [exact A|]. split; [exact B|]. split; [|exact D].
  eapply Forall_impl; [|exact C]. intros c [_ H]. exact H.
Qed.

(** Firmware of at most 65535 blocks of 16 bytes, with a session key:
    [sendFirmware] ends normally after writing one packet per 16-byte
    block plus a final packet; packet [i] starts with [i] as a
    little-endian 16-bit counter, block packets are 20 bytes and the
    final one 4 bytes, and every packet carries a CRC-16 trailer that
    makes the CRC of the whole packet 0. *)
Theorem send_firmware_packets (key fw : bytes) :
  key <> [] -> fw <> [] -> Z.of_nat (length fw) <= 1048560 ->
  let '(ps, r) := Firmware.send_firmware (Some key) fw in
  r = Ok tt
  /\ (16 * (length ps - 1) < length fw + 16)%nat
  /\ (length fw <= 16 * (length ps - 1))%nat
  /\ forall i, (i < length ps)%nat ->
       Packet.crc16 (nth i ps []) = 0
       /\ firstn 2 (nth i ps []) = [Z.of_nat i mod 256; Z.of_nat i / 256]
       /\ length (nth i ps []) = (if (i <? length ps - 1)%nat then 20 else 4)%nat.
Proof.
  intros Hk Hf Hl. rewrite send_firmware_run by assumption.
  destruct (chunks16_fw fw) as [A [B [C _]]].
  destruct (send_loop_ok (chunks16 fw) 0) as [H1 [H2 [H3 _]]];
    [lia | unfold bytes in *; lia | exact C |].
  destruct (Firmware.send_loop 0 (chunks16 fw)) as [ps r]. cbn [fst snd] in *.
  unfold bytes in *.
  rewrite H2. replace (S (length (chunks16 fw)) - 1)%nat with (length (chunks16 fw)) by lia.
  split; [exact H1|]. split; [lia|]. split; [lia|]. intros i Hi.
  destruct (H3 i Hi) as [X [Y W]]. rewrite Z.add_0_l in Y.
  split; [exact X|]. split; [exact Y|]. rewrite W. cbn [Nat.sub]. rewrite Nat.sub_0_r. reflexivity.
Qed.

(** The firmware is recoverable from what [sendFirmware] writes: bytes
    2..17 of every packet but the last, concatenated and cut to the
    firmware's length, give back the firmware. *)
Theorem send_firmware_recover (key fw : bytes) :
  key <> [] -> fw <> [] -> Z.of_nat (length fw) <= 1048560 ->
  firstn (length fw)
    (concat (map (slice 2 18) (removelast (fst (Firmware.send_firmware (Some key) fw)))))
  = fw.
Proof.
  intros Hk Hf Hl. rewrite send_firmware_run by assumption.
  destruct (chunks16_fw fw) as [A [B [C [k D]]]].
  destruct (send_loop_ok (chunks16 fw) 0) as [_ [_ [_ H4]]];
    [lia | unfold bytes in *; lia | exact C |].
  rewrite H4, D, firstn_app, Nat.sub_diag, firstn_all. apply app_nil_r.
Qed.

(** Firmware of more than 65535 blocks: the 16-bit packet counter
    overflows; [sendFirmware] writes 65536 block packets, never the
    final packet, and raises [struct.error]. *)
Theorem send_firmware_overflow (key fw : bytes) :
  key <> [] -> 1048560 < Z.of_nat (length fw) ->
  exists ps, Firmware.send_firmware (Some key) fw = (ps, Raise StructError)
             /\ Z.of_nat (length ps) = 65536.
Proof.
  intros Hk Hl. assert (Hf : fw <> []) by (intros ->; cbn in Hl; lia).
  rewrite send_firmware_run by assumption.
  destruct (chunks16_fw fw) as [A [B _]]. unfold bytes in *.
  destruct (send_loop_overflow (chunks16 fw) 0) as [H1 H2];
    [lia | unfold bytes in *; lia |].
  exists (fst (Firmware.send_loop 0 (chunks16 fw))). split; [exact H1|].
  unfold bytes in *. rewrite H2. reflexivity.
Qed.

(** [sendFirmware] writes nothing exactly when the session key is unset
    or empty (the assertion fails) or the firmware file is empty. *)
Theorem send_firmware_nothing_written (key : option bytes) (fw : bytes) :
  fst (Firmware.send_firmware key fw) = []
  <-> (key = None \/ key = Some []) \/ fw = [].
Proof.
  split.
  - intros H. destruct key as [[|b key]|]; auto. right.
    destruct fw as [|x fw]; [reflexivity|]. exfalso.
    rewrite send_firmware_run in H by discriminate.
    destruct (chunks16_fw (x :: fw)) as [A [B [C _]]].
    destruct (Z_le_gt_dec (Z.of_nat (length (x :: fw))) 1048560) as [Hl|Hl].
    + destruct (send_loop_ok (chunks16 (x :: fw)) 0) as [_ [H2 _]];
        [lia | unfold bytes in *; lia | exact C |].
      rewrite H in H2. discriminate H2.
    + destruct (send_loop_overflow (chunks16 (x :: fw)) 0) as [_ H2];
        [lia | unfold bytes in *; lia |].
      rewrite H in H2. discriminate H2.
  - intros [[-> | ->] | ->]; [reflexivity | reflexivity |].
    destruct key as [[|b key]|]; reflexivity.
Qed.

(** The 16-bit CRC trailer: [crc16] of any data fits [struct.pack('<H', ...)],
    and appending the packed CRC gives data whose own CRC is 0. *)
Theorem crc16_trailer_zero (data : bytes) :
  exists crc, Packet.pack_u16_le (Packet.crc16 data) = Ok crc
              /\ Packet.crc16 (data ++ crc) = 0.
Proof.
  destruct (crc16_append data) as [crc [Hp [_ Hz]]]. exists crc. auto.
Qed.

(** ** Retried connection *)

Lemma retry_loop_connected env a f :
  ConnectRetry.retry_loop env true a f = (a, Ok true).
Proof. destruct f; reflexivity. Qed.

Lemma retry_loop_spec env f : forall a,
  let '(n, r) := ConnectRetry.retry_loop env false a f in
  (a <= n <= a + f)%nat
  /\ (forall j, (a <= j)%nat -> (j + 1 < n)%nat ->
        env j = ConnectRetry.Returned false \/ env j = ConnectRetry.DisconnectError)
  /\ (r = Ok true <-> (a < n)%nat /\ env (n - 1)%nat = ConnectRetry.Returned true)
  /\ (r = Ok false <-> n = (a + f)%nat
        /\ (n = a \/ env (n - 1)%nat = ConnectRetry.Returned false
            \/ env (n - 1)%nat = ConnectRetry.DisconnectError))
  /\ (forall e, r = Raise e <-> (a < n)%nat /\ env (n - 1)%nat = ConnectRetry.OtherError e).
Proof.
  induction f as [|f IH]; intros a; cbn [ConnectRetry.retry_loop].
  - rewrite Nat.add_0_r. split; [lia|]. split; [intros; lia|].
    split; [split; [discriminate | lia]|]. split; [split; auto|].
    intros e. split; [discriminate | lia].
  - assert (Hrec : env a = ConnectRetry.Returned false \/ env a = ConnectRetry.DisconnectError ->
              let '(n, r) := ConnectRetry.retry_loop env false (S a) f in
              (a <= n <= a + S f)%nat
              /\ (forall j, (a <= j)%nat -> (j + 1 < n)%nat ->
                    env j = ConnectRetry.Returned false \/ env j = ConnectRetry.DisconnectError)
              /\ (r = Ok true <-> (a < n)%nat /\ env (n - 1)%nat = ConnectRetry.Returned true)
              /\ (r = Ok false <-> n = (a + S f)%nat
                    /\ (n = a \/ env (n - 1)%nat = ConnectRetry.Returned false
                        \/ env (n - 1)%nat = ConnectRetry.DisconnectError))
              /\ (forall e, r = Raise e <-> (a < n)%nat /\ env (n - 1)%nat = ConnectRetry.OtherError e)).
    { intros Ha. specialize (IH (S a)).
      destruct (ConnectRetry.retry_loop env false (S a) f) as [n r].
      destruct IH as [B [J [T [F R]]]].
      assert (Hn1 : n = S a -> env (n - 1)%nat = env a)
        by (intros ->; f_equal; lia).
      split; [lia|]. split.
      { intros j Hj Hjn. destruct (Nat.eq_dec j a) as [->|Hne]; [exact Ha | apply J; lia]. }
      split.
      { rewrite T. split; intros [Hlt He]; (split; [lia | exact He]) || idtac.
        destruct (Nat.eq_dec n (S a)) as [Hs|Hs]; [|split; [lia | exact He]].
        rewrite (Hn1 Hs) in He. destruct Ha as [Ha|Ha]; congruence. }
      split.
      { rewrite F. split; intros [Hn Hd]; split; try lia.
        - destruct Hd as [Hd|Hd]; [|right; exact Hd].
          right. rewrite (Hn1 Hd). exact Ha.
        - destruct Hd as [Hd|Hd]; [lia|]. right. exact Hd. }
      intros e. rewrite R. split; intros [Hlt He]; [split; [lia | exact He]|].
      destruct (Nat.eq_dec n (S a)) as [Hs|Hs]; [|split; [lia | exact He]].
      rewrite (Hn1 Hs) in He. destruct Ha as [Ha|Ha]; congruence. }
    destruct (env a) as [[|]| |e] eqn:Ea.
    + rewrite retry_loop_connected.
      replace (S a - 1)%nat with a by lia.
      split; [lia|]. split; [intros; lia|].
      split; [split; [intros _; split; [lia | exact Ea] | reflexivity]|].
      split; [split; [discriminate | intros [_ [H|[H|H]]]; [lia | congruence | congruence]]|].
      intros e. split; [discriminate | intros [_ H]; congruence].
    + apply Hrec. left. reflexivity.
    + apply Hrec. right. reflexivity.
    + replace (S a - 1)%nat with a by lia.
      split; [lia|]. split; [intros; lia|].
      split; [split; [discriminate | intros [_ H]; congruence]|].
      split; [split; [discriminate | intros [_ [H|[H|H]]]; [lia | congruence | congruence]]|].
      intros e'. split; [intros H; injection H as ->; split; [lia | exact Ea]|].
      intros [_ H]. rewrite Ea in H. injection H as ->. reflexivity.
Qed.

(** [connectWithRetry(num_tries)] calls [connect] at most [num_tries]
    times; every call but the last returned False or raised
    [BTLEDisconnectError]; it returns True exactly when the last call
    returned True, returns False exactly when all [num_tries] calls were
    used up without success, and any other exception of a call leaves
    the method at once. *)
Theorem connect_with_retry_spec env (num_tries : Z) :
  let '(n, r) := ConnectRetry.connect_with_retry env num_tries in
  (n <= Z.to_nat num_tries)%nat
  /\ (forall j, (j + 1 < n)%nat ->
        env j = ConnectRetry.Returned false \/ env j = ConnectRetry.DisconnectError)
  /\ (r = Ok true <-> (0 < n)%nat /\ env (n - 1)%nat = ConnectRetry.Returned true)
  /\ (r = Ok false <-> n = Z.to_nat num_tries
        /\ (n = O \/ env (n - 1)%nat = ConnectRetry.Returned false
            \/ env (n - 1)%nat = ConnectRetry.DisconnectError))
  /\ (forall e, r = Raise e <-> (0 < n)%nat /\ env (n - 1)%nat = ConnectRetry.OtherError e).
Proof.
  unfold ConnectRetry.connect_with_retry.
  pose proof (retry_loop_spec env (Z.to_nat num_tries) 0) as H.
  destruct (ConnectRetry.retry_loop env false 0 (Z.to_nat num_tries)) as [n r].
  destruct H as [B [J [T [F R]]]].
  split; [lia|]. split; [intros j Hj; apply J; lia|].
  split; [exact T|]. split; [exact F|exact R].
Qed.

(** ** Commands *)

Lemma truthy_key_some (key : bytes) :
  length key = 16%nat -> Command.truthy_key (Some key) = Some key.
Proof. destruct key; [discriminate | reflexivity]. Qed.

Lemma write_command_ok l command data dest s w key p :
  Command.truthy_key (Light.session_key l) = Some key ->
  Packet.make_command_packet key (Light.mac l) (command_target l dest) command data s = Ok p ->
  Command.write_command l command data dest s w =
    match w with
    | Command.WriteReturned r => (l, [p], inl r)
    | Command.WriteRaised Command.BTLEDisconnectError =>
        (Light.set_session_key None l, [p], inr Command.BTLEDisconnectError)
    | Command.WriteRaised (Command.BTLEInternalError true) =>
        (Light.set_session_key None l, [p], inl None)
    | Command.WriteRaised (Command.BTLEInternalError false) => (l, [p], inl None)
    | Command.WriteRaised (Command.PyError e) => (l, [p], inr (Command.PyError e))
    end.
Proof.
  intros Hk Hp. unfold Command.write_command. rewrite Hk. cbv zeta.
  unfold command_target in Hp. rewrite Hp. reflexivity.
Qed.

Lemma write_command_no_key l command data dest s w :
  Command.truthy_key (Light.session_key l) = None ->
  Command.write_command l command data dest s w = (l, [], inr (Command.PyError AssertionError)).
Proof. intros Hk. unfold Command.write_command. rewrite Hk. reflexivity. Qed.

Lemma write_command_roundtrip l command data dest s w key a :
  Light.session_key l = Some key -> length key = 16%nat ->
  Packet.fromhex (Packet.remove_colons (Light.mac l)) = Ok a ->
  0 <= command_target l dest <= 65535 -> 0 <= command <= 255 ->
  (length data <= 11)%nat -> length s = 3%nat ->
  exists p, snd (fst (Command.write_command l command data dest s w)) = [p]
            /\ firstn 3 p = s
            /\ length p = (5 + Nat.max 15 (5 + length data))%nat
            /\ Packet.crypt_payload key (command_nonce a s) (skipn 5 p)
               = Ok (command_payload (command_target l dest) command data).
Proof.
  intros Hsk Hk Ha Hd Hc Hdata Hs.
  destruct (make_command_packet_shape key (Light.mac l) a (command_target l dest) command data s)
    as [check [enc [_ [Hlc [_ [Hle [Hback Hmk]]]]]]]; auto.
  rewrite (write_command_ok l command data dest s w key (s ++ firstn 2 check ++ enc));
    [| rewrite Hsk; apply truthy_key_some, Hk | exact Hmk].
  exists (s ++ firstn 2 check ++ enc).
  assert (Hl2 : length (firstn 2 check) = 2%nat) by (rewrite length_firstn; lia).
  split; [destruct w as [r|[|[|]|e]]; reflexivity|].
  split; [rewrite firstn_app, Hs, Nat.sub_diag, firstn_all2 by lia; apply app_nil_r|].
  split; [rewrite !length_app, Hs, Hl2, Hle; lia|].
  rewrite skipn_app, skipn_all2 by lia. rewrite Hs. cbn [Nat.sub app].
  rewrite skipn_app, skipn_all2 by lia. rewrite Hl2. cbn [Nat.sub skipn app].
  exact Hback.
Qed.

(** [writeCommand] with a 16-byte session key, a MAC that
    [bytearray.fromhex] accepts, a 16-bit destination (its own mesh id
    when [dest] is [None]), an 8-bit command and at most 11 data bytes
    hands exactly one packet to the write, whatever the write then does;
    the packet starts with the 3 random bytes and its bytes from offset 5
    decrypt, under the command nonce, to the command payload. *)
Theorem write_command_packet l command data dest s w key a :
  Light.session_key l = Some key -> length key = 16%nat ->
  Packet.fromhex (Packet.remove_colons (Light.mac l)) = Ok a ->
  0 <= command_target l dest <= 65535 -> 0 <= command <= 255 ->
  (length data <= 11)%nat -> length s = 3%nat ->
  exists p, snd (fst (Command.write_command l command data dest s w)) = [p]
            /\ firstn 3 p = s
            /\ length p = (5 + Nat.max 15 (5 + length data))%nat
            /\ Packet.crypt_payload key (command_nonce a s) (skipn 5 p)
               = Ok (command_payload (command_target l dest) command data).
Proof. apply write_command_roundtrip. Qed.

Lemma pack_color_ok red green blue :
  0 <= red <= 255 -> 0 <= green <= 255 -> 0 <= blue <= 255 ->
  Command.pack_color red green blue = Ok [4; red; green; blue].
Proof.
  intros Hr Hg Hb. unfold Command.pack_color.
  rewrite (pack_u8_ok 4), (pack_u8_ok red), (pack_u8_ok green), (pack_u8_ok blue) by lia.
  reflexivity.
Qed.

(** [setColor]: a channel outside 0..255 makes [struct.pack] raise before
    anything is written and the light is unchanged; otherwise, with a
    usable session key and MAC, the one packet written carries command
    0xE2 with data [04 red green blue] to the destination. *)
Theorem set_color_packet l red green blue dest s w key a :
  Light.session_key l = Some key -> length key = 16%nat ->
  Packet.fromhex (Packet.remove_colons (Light.mac l)) = Ok a ->
  0 <= command_target l dest <= 65535 -> length s = 3%nat ->
  ((0 <= red <= 255 /\ 0 <= green <= 255 /\ 0 <= blue <= 255) ->
   exists p, snd (fst (Command.set_color l red green blue dest s w)) = [p]
             /\ Packet.crypt_payload key (command_nonce a s) (skipn 5 p)
                = Ok (command_payload (command_target l dest) 226 [4; red; green; blue]))
  /\ (~ (0 <= red <= 255 /\ 0 <= green <= 255 /\ 0 <= blue <= 255) ->
      Command.set_color l red green blue dest s w
      = (l, [], inr (Command.PyError StructError))).
Proof.
  intros Hsk Hk Ha Hd Hs. split.
  - intros [Hr [Hg Hb]]. unfold Command.set_color. rewrite pack_color_ok by assumption.
    destruct (write_command_roundtrip l 226 [4; red; green; blue] dest s w key a)
      as [p [Hp [_ [_ Hc]]]]; auto; [lia | cbn; lia |].
    exists p. auto.
  - intros Hn. unfold Command.set_color, Command.pack_color, Packet.pack_u8.
    destruct (Z.leb_spec 0 red); destruct (Z.leb_spec red 255);
      destruct (Z.leb_spec 0 green); destruct (Z.leb_spec green 255);
      destruct (Z.leb_spec 0 blue); destruct (Z.leb_spec blue 255);
      cbn [andb bind Z.leb]; try reflexivity.
    exfalso. apply Hn. lia.
Qed.

(** [setMeshId] sends the new id as the little-endian data of command
    0xE0 to the light's current (old) mesh id, writing at most one
    packet; it adopts the new id whenever no exception leaves the method,
    including when the write failed with an ignored internal error, and
    keeps the old id otherwise; it only ever clears the session key and
    leaves the MAC and mesh credentials alone. *)
Theorem set_mesh_id_outcome l new_id s w :
  let '(l', ps, r) := Command.set_mesh_id l new_id s w in
  Light.mac l' = Light.mac l
  /\ Light.mesh_name l' = Light.mesh_name l
  /\ Light.mesh_password l' = Light.mesh_password l
  /\ (Light.session_key l' = Light.session_key l \/ Light.session_key l' = None)
  /\ (forall v, r = inl v -> Light.mesh_id l' = new_id /\ v = None)
  /\ (forall e, r = inr e -> Light.mesh_id l' = Light.mesh_id l)
  /\ (length ps <= 1)%nat
  /\ (forall p, In p ps ->
        exists key, Command.truthy_key (Light.session_key l) = Some key
          /\ Packet.make_command_packet key (Light.mac l) (Light.mesh_id l) 224
               [new_id mod 256; new_id / 256] s = Ok p).
Proof.
  unfold Command.set_mesh_id.
  destruct (Packet.pack_u16_le new_id) as [data|e] eqn:Hp.
  2: { split; [reflexivity|]. split; [reflexivity|]. split; [reflexivity|].
       split; [left; reflexivity|]. split; [intros v Hv; discriminate Hv|].
       split; [intros; reflexivity|]. split; [cbn; lia|]. intros p [] . }
  assert (Hd : data = [new_id mod 256; new_id / 256]).
  { unfold Packet.pack_u16_le in Hp. destruct (_ && _); congruence. }
  subst data. unfold Command.write_command.
  destruct (Command.truthy_key (Light.session_key l)) as [key|] eqn:Hk.
  2: { split; [reflexivity|]. split; [reflexivity|]. split; [reflexivity|].
       split; [left; reflexivity|]. split; [intros v Hv; discriminate Hv|].
       split; [intros; reflexivity|]. split; [cbn; lia|]. intros p [] . }
  cbv zeta.
  destruct (Packet.make_command_packet key (Light.mac l) (Light.mesh_id l) 224
              [new_id mod 256; new_id / 256] s) as [p|e] eqn:Hm.
  2: { split; [reflexivity|]. split; [reflexivity|]. split; [reflexivity|].
       split; [left; reflexivity|]. split; [intros v Hv; discriminate Hv|].
       split; [intros; reflexivity|]. split; [cbn; lia|]. intros p' [] . }
  destruct w as [r|[|[|]|e]]; cbn;
    (split; [reflexivity|]); (split; [reflexivity|]); (split; [reflexivity|]);
    (split; [first [left; reflexivity | right; reflexivity]|]);
    (split; [intros v Hv; first [discriminate Hv | injection Hv as <-; split; reflexivity]|]);
    (split; [intros e' He; first [discriminate He | reflexivity]|]);
    (split; [lia|]);
    (intros p' [<-|[]]; exists key; split; [reflexivity | exact Hm]).
Qed.

(** [setWhite] after the temperature write failed with the
    'Helper not started' internal error: the error is swallowed and the
    session key cleared, so the brightness command fails its
    [assert (self.session_key)]; only the temperature packet is written
    and the call raises [AssertionError]. *)
Theorem set_white_helper_not_started l temp brightness dest s1 s2 w2 key p1 :
  Command.truthy_key (Light.session_key l) = Some key ->
  0 <= temp <= 255 -> 0 <= brightness <= 255 ->
  Packet.make_command_packet key (Light.mac l) (command_target l dest) 240 [temp] s1 = Ok p1 ->
  Command.set_white l temp brightness dest s1 s2
    (Command.WriteRaised (Command.BTLEInternalError true)) w2
  = (Light.set_session_key None l, [p1], inr (Command.PyError AssertionError)).
Proof.
  intros Hk Ht Hb Hp. unfold Command.set_white.
  rewrite pack_u8_ok by exact Ht.
  rewrite (write_command_ok l 240 [temp] dest s1 _ key p1 Hk Hp).
  rewrite pack_u8_ok by exact Hb.
  rewrite write_command_no_key by reflexivity. reflexivity.
Qed.

(** [setMesh] with a 16-byte session key and a new name, password and
    long term key of at most 16 bytes each writes three 17-byte messages,
    0x04, 0x05 and 0x06 followed by the AES encryption of the field; it
    adopts the new name and password and returns True exactly when byte 0
    of the reply is 0x07, and raises [IndexError] on an empty reply. *)
Theorem set_mesh_messages l key new_name new_password new_ltk r0 rest :
  Light.session_key l = Some key -> length key = 16%nat ->
  (length new_name <= 16)%nat -> (length new_password <= 16)%nat ->
  (length new_ltk <= 16)%nat ->
  exists m1 m2 m3,
    Packet.encrypt key new_name = Ok m1 /\ length m1 = 16%nat
    /\ Packet.encrypt key new_password = Ok m2 /\ length m2 = 16%nat
    /\ Packet.encrypt key new_ltk = Ok m3 /\ length m3 = 16%nat
    /\ Command.set_mesh l new_name new_password new_ltk (r0 :: rest)
       = Ok (if r0 =? 7 then Command.set_mesh_credentials new_name new_password l else l,
             [4 :: m1; 5 :: m2; 6 :: m3], r0 =? 7)
    /\ Command.set_mesh l new_name new_password new_ltk [] = Raise IndexError.
Proof.
  intros Hsk Hk Hn Hp Hl.
  destruct (encrypt_ok key new_name Hk Hn) as [m1 [H1 L1]].
  destruct (encrypt_ok key new_password Hk Hp) as [m2 [H2 L2]].
  destruct (encrypt_ok key new_ltk Hk Hl) as [m3 [H3 L3]].
  exists m1, m2, m3. repeat (split; [assumption|]).
  unfold Command.set_mesh. rewrite Hsk, truthy_key_some by exact Hk.
  rewrite (proj2 (Nat.leb_le _ _) Hn), (proj2 (Nat.leb_le _ _) Hp),
    (proj2 (Nat.leb_le _ _) Hl). cbn [negb].
  rewrite H1, H2, H3. cbn [bind Light.index0].
  split; [destruct (r0 =? 7); reflexivity | reflexivity].
Qed.

(** ** Device directory and RSSI scan *)

Lemma dir_set_get k v d : Mesh.dir_get k (Mesh.dir_set k v d) = Some v.
Proof.
  induction d as [|[k' v'] d IH]; cbn [Mesh.dir_set Mesh.dir_get].
  - rewrite Z.eqb_refl. reflexivity.
  - destruct (k =? k') eqn:E; cbn [Mesh.dir_get]; rewrite E; [reflexivity | exact IH].
Qed.

Lemma dir_set_other k k2 v d :
  k2 <> k -> Mesh.dir_get k2 (Mesh.dir_set k v d) = Mesh.dir_get k2 d.
Proof.
  intros Hne. induction d as [|[k' v'] d IH]; cbn [Mesh.dir_set Mesh.dir_get].
  - apply Z.eqb_neq in Hne. rewrite Hne. reflexivity.
  - destruct (k =? k') eqn:E; cbn [Mesh.dir_get].
    + apply Z.eqb_eq in E. subst k'. apply Z.eqb_neq in Hne. rewrite Hne. reflexivity.
    + destruct (k2 =? k'); [reflexivity | exact IH].
Qed.

Lemma dir_set_keys k v d :
  map fst (Mesh.dir_set k v d)
  = if existsb (Z.eqb k) (map fst d) then map fst d else map fst d ++ [k].
Proof.
  induction d as [|[k' v'] d IH]; cbn [Mesh.dir_set map existsb fst]; [reflexivity|].
  destruct (k =? k') eqn:E; cbn [map fst orb]; [reflexivity|].
  rewrite IH. destruct (existsb (Z.eqb k) (map fst d)); reflexivity.
Qed.

(** [register_device] stores under the mesh id a fresh entry (the MAC,
    name and callback given, rssi -999999, no last update, zero counters),
    also when the id was registered before; every other id keeps its
    entry; a known id keeps its place in the dict order and a new one is
    appended at the end. *)
Theorem register_device_lookup mesh_id mac nm cb d :
  Mesh.dir_get mesh_id (Mesh.register_device mesh_id mac nm cb d)
    = Some {| Mesh.dmac := Some mac; Mesh.name := nm; Mesh.callback := cb;
              Mesh.last_update := None; Mesh.update_count := 0;
              Mesh.status_request_count := 0; Mesh.rssi := -999999 |}
  /\ (forall k, k <> mesh_id ->
        Mesh.dir_get k (Mesh.register_device mesh_id mac nm cb d) = Mesh.dir_get k d)
  /\ map fst (Mesh.register_device mesh_id mac nm cb d)
     = if existsb (Z.eqb mesh_id) (map fst d) then map fst d else map fst d ++ [mesh_id].
Proof.
  unfold Mesh.register_device. split; [apply dir_set_get|].
  split; [intros k Hk; apply dir_set_other, Hk | apply dir_set_keys].
Qed.

Lemma rssi_loop_raised found d : snd (Scan.rssi_loop found d) = existsb no_mac d.
Proof.
  induction d as [|[k i] d IH]; cbn [Scan.rssi_loop existsb]; [reflexivity|].
  unfold no_mac at 1. cbn [snd].
  destruct (Mesh.dmac i) as [m|]; [|reflexivity].
  destruct (Scan.rssi_loop found d) as [d'' r]. exact IH.
Qed.

Lemma rssi_loop_map found d :
  existsb no_mac d = false -> fst (Scan.rssi_loop found d) = map (rescored found) d.
Proof.
  induction d as [|[k i] d IH]; cbn [Scan.rssi_loop existsb map]; [reflexivity|].
  unfold no_mac at 1. cbn [snd].
  destruct (Mesh.dmac i) as [m|] eqn:Em; cbn [orb]; [|discriminate].
  intros H. specialize (IH H).
  destruct (Scan.rssi_loop found d) as [d'' r]. cbn [fst] in *. rewrite IH.
  f_equal. unfold rescored, scan_rssi. cbn [snd fst]. rewrite Em. reflexivity.
Qed.

Lemma scan_completed_eq now found st :
  Scan.scanning_devices st = false -> existsb no_mac (Scan.sc_devices st) = false ->
  Scan.async_get_devices_rssi now (Some found) st
  = ({| Scan.sc_devices := map (rescored found) (Scan.sc_devices st);
        Scan.scanning_devices := Mesh.device_set (Scan.sc_connected st);
        Scan.last_rssi_check := Some now;
        Scan.sc_connected := Scan.sc_connected st;
        Scan.sc_connected_device :=
          if Mesh.device_set (Scan.sc_connected st) then Scan.sc_connected_device st
          else None |},
     Mesh.device_set (Scan.sc_connected st)).
Proof.
  intros Hs Hm. unfold Scan.async_get_devices_rssi. rewrite Hs.
  pose proof (rssi_loop_raised found (Scan.sc_devices st)) as R.
  pose proof (rssi_loop_map found (Scan.sc_devices st) Hm) as M.
  destruct (Scan.rssi_loop found (Scan.sc_devices st)) as [d r]. cbn [fst snd] in *.
  rewrite R, Hm, M. unfold Scan.update_mesh_state. cbn [Scan.sc_connected].
  destruct (Scan.sc_connected st); reflexivity.
Qed.

(** [_async_get_devices_rssi] with a scan result, not already scanning
    and every device with a MAC, gives each device, in place, the rssi the
    scanner reported for its upper-cased MAC, -99999 for a device found
    without rssi and -999999 for one not found, leaving its other fields
    alone, and records the time of the check.  The awaited
    [_async_update_mesh_state()] then raises [AttributeError] when a
    device is connected, leaving the scanning flag set; with no device it
    clears [connected_device] and then the scanning flag. *)
Theorem scan_completed now found st :
  Scan.scanning_devices st = false -> existsb no_mac (Scan.sc_devices st) = false ->
  Scan.async_get_devices_rssi now (Some found) st
  = ({| Scan.sc_devices := map (rescored found) (Scan.sc_devices st);
        Scan.scanning_devices := Mesh.device_set (Scan.sc_connected st);
        Scan.last_rssi_check := Some now;
        Scan.sc_connected := Scan.sc_connected st;
        Scan.sc_connected_device :=
          if Mesh.device_set (Scan.sc_connected st) then Scan.sc_connected_device st
          else None |},
     Mesh.device_set (Scan.sc_connected st)).
Proof. apply scan_completed_eq. Qed.

(** An exception leaves [_async_get_devices_rssi] exactly when it was
    not already scanning and the scan itself raised, a device has no MAC,
    or a device is connected (its [is_connected()] read raises); the
    method then leaves [_scanning_devices] set, and every later call
    returns at once without changing anything. *)
Theorem scan_raise_sticks now scan st :
  let '(st1, raised) := Scan.async_get_devices_rssi now scan st in
  (raised = true <-> Scan.scanning_devices st = false
                     /\ (scan = None \/ existsb no_mac (Scan.sc_devices st) = true
                         \/ Scan.sc_connected st <> None))
  /\ (raised = true ->
      Scan.scanning_devices st1 = true
      /\ forall now' scan', Scan.async_get_devices_rssi now' scan' st1 = (st1, false)).
Proof.
  unfold Scan.async_get_devices_rssi at 1.
  destruct (Scan.scanning_devices st) eqn:Hs.
  - split; [split; [discriminate | intros [H _]; discriminate H] | discriminate].
  - destruct scan as [found|].
    + pose proof (rssi_loop_raised found (Scan.sc_devices st)) as R.
      destruct (Scan.rssi_loop found (Scan.sc_devices st)) as [d r]. cbn [snd] in R.
      destruct r.
      * split; [split; [intros _; split; [reflexivity | right; left; congruence] | reflexivity]|].
        intros _. split; [reflexivity|]. intros; reflexivity.
      * unfold Scan.update_mesh_state. cbn [Scan.sc_connected].
        destruct (Scan.sc_connected st) as [c|] eqn:Ec; cbn.
        -- split; [split; [intros _; split; [reflexivity | right; right; discriminate]
                          | reflexivity]|].
           intros _. split; [reflexivity|]. intros; reflexivity.
        -- split; [split; [discriminate | intros [_ [H|[H|H]]]; congruence]|]. discriminate.
    + split; [split; [intros _; split; [reflexivity | left; reflexivity] | reflexivity]|].
      intros _. split; [reflexivity|]. intros; reflexivity.
Qed.

Lemma in_connectable e d :
  In e (Mesh.get_connectable_devices d) <-> In e d /\ Mesh.rssi_floor < Mesh.rssi (snd e).
Proof.
  unfold Mesh.get_connectable_devices. rewrite filter_In, Z.ltb_lt.
  split; intros [H1 H2]; split; auto.
  - eapply Permutation_in; [apply sort_perm | exact H1].
  - eapply Permutation_in; [apply Permutation_sym, sort_perm | exact H1].
Qed.

(** After a completed scan, the devices [_getConnectableDevices] offers
    for connection are exactly the registered ones the scanner reported
    with an rssi above -9999; a device not found, or found without rssi,
    is never tried. *)
Theorem scan_then_candidates now found st k i :
  Scan.scanning_devices st = false -> existsb no_mac (Scan.sc_devices st) = false ->
  In (k, i) (Mesh.get_connectable_devices
               (Scan.sc_devices (fst (Scan.async_get_devices_rssi now (Some found) st))))
  <-> exists i0 m r, In (k, i0) (Scan.sc_devices st) /\ Mesh.dmac i0 = Some m
        /\ Scan.scan_get (Scan.upper m) found = Some (Some r) /\ -9999 < r
        /\ i = Scan.with_rssi r i0.
Proof.
  intros Hs Hm. rewrite scan_completed_eq by assumption. cbn [fst Scan.sc_devices].
  rewrite in_connectable, in_map_iff. unfold Mesh.rssi_floor. split.
  - intros [[[k0 i0] [He Hin]] Hr]. unfold rescored in He. cbn [snd fst] in He.
    destruct (Mesh.dmac i0) as [m|] eqn:Em.
    + injection He as <- <-. cbn [snd Scan.with_rssi Mesh.rssi] in Hr.
      unfold scan_rssi in *.
      destruct (Scan.scan_get (Scan.upper m) found) as [[r|]|] eqn:Eg; [|lia|lia].
      exists i0, m, r. auto.
    + exfalso. assert (Hx : existsb no_mac (Scan.sc_devices st) = true).
      { apply existsb_exists. exists (k0, i0). split; [exact Hin|].
        unfold no_mac. cbn [snd]. rewrite Em. reflexivity. }
      congruence.
  - intros [i0 [m [r [Hin [Em [Eg [Hr ->]]]]]]]. split.
    + exists (k, i0). split; [|exact Hin]. unfold rescored, scan_rssi. cbn [snd fst].
      rewrite Em, Eg. reflexivity.
    + cbn. exact Hr.
Qed.

(** ** Codec edge cases *)

Lemma chunks16_full q : forall b : bytes, length b = (16 * q)%nat ->
  Forall (fun c => length c = 16%nat) (chunks16 b).
Proof.
  induction q as [|q IH]; intros b Hb.
  - destruct b; [rewrite chunks16_nil; constructor | discriminate].
  - assert (Hne : b <> []) by (intros ->; cbn in Hb; lia).
    rewrite chunks16_cons by exact Hne. constructor.
    + rewrite length_firstn. lia.
    + apply IH. rewrite length_skipn. lia.
Qed.

Lemma concat_blocks_length (f : bytes -> bytes) (cs : list bytes) :
  Forall (fun c => length c = 16%nat) cs ->
  (forall c, length c = 16%nat -> length (f c) = 16%nat) ->
  length (concat (map f cs)) = (16 * length cs)%nat.
Proof.
  intros H Hf. induction H as [|c cs Hc _ IH]; [reflexivity|].
  cbn [map concat length]. rewrite length_app, Hf, IH by exact Hc. lia.
Qed.

(** [encrypt] asserts a 16-byte key; with one, a value of at most 16
    bytes (padded with zeros) gives 16 bytes, and a longer value is
    encrypted block by block, to the same length, when its length is a
    multiple of 16, and makes AES-ECB raise [ValueError] otherwise. *)
Theorem encrypt_edges (key v : bytes) :
  ((length key <> 16)%nat -> Packet.encrypt key v = Raise AssertionError)
  /\ (length key = 16%nat ->
      ((length v <= 16)%nat \/ (length v mod 16 = 0)%nat ->
       exists c, Packet.encrypt key v = Ok c /\ length c = Nat.max 16 (length v))
      /\ ((16 < length v)%nat -> (length v mod 16 <> 0)%nat ->
          Packet.encrypt key v = Raise ValueError)).
Proof.
  split.
  - intros Hk. unfold Packet.encrypt. destruct key as [|k0 key']; [reflexivity|].
    apply Nat.eqb_neq in Hk. rewrite Hk. reflexivity.
  - intros Hk.
    assert (Hl : length (rev (ljust 16 v)) = Nat.max 16 (length v))
      by (rewrite length_rev, ljust_length; reflexivity).
    assert (Henc : Packet.encrypt key v
                   = (val' <- Packet.ecb_encrypt (rev key) (rev (ljust 16 v)) ;; Ok (rev val'))).
    { unfold Packet.encrypt. destruct key as [|k0 key']; [discriminate|].
      rewrite Hk. reflexivity. }
    rewrite Henc. unfold Packet.ecb_encrypt. rewrite Hl. split.
    + intros Hv.
      assert (Hq : exists q, Nat.max 16 (length v) = (16 * q)%nat).
      { destruct Hv as [Hv|Hv].
        - exists 1%nat. lia.
        - destruct (proj1 (Nat.Div0.mod_divides (length v) 16) Hv) as [q Hq].
          exists (Nat.max 1 q). lia. }
      destruct Hq as [q Hq].
      rewrite (proj2 (Nat.Div0.mod_divides _ 16) (ex_intro _ q Hq)).
      cbn [Nat.eqb bind]. eexists; split; [reflexivity|].
      rewrite length_rev, concat_blocks_length.
      * pose proof (chunks16_fw (rev (ljust 16 v))) as [A [B _]].
        rewrite Hl in A, B. lia.
      * apply (chunks16_full q). rewrite Hl. exact Hq.
      * intros c Hc. apply encrypt_block_length; [rewrite length_rev; exact Hk | exact Hc].
    + intros Hv Hm. rewrite Nat.max_r by lia.
      destruct (length v mod 16)%nat eqn:E; [contradiction|]. reflexivity.
Qed.

Lemma crypt_loop_overflow key n : forall p b t,
  length key = 16%nat -> length (b :: t) = 16%nat -> b <= 255 ->
  (length p <= 16 * n)%nat -> 16 * (255 - b) < Z.of_nat (length p) ->
  Packet.crypt_loop key (b :: t) (chunks16 p) = Raise ValueError.
Proof.
  induction n as [|n IH]; intros p b t Hk Hb Hb255 Hp Hlt; unfold bytes in *.
  - lia.
  - assert (Hne : p <> []) by (intros ->; cbn [length Z.of_nat] in Hlt; lia).
    rewrite crypt_loop_chunks by exact Hne.
    destruct (encrypt_ok key (b :: t) Hk) as [e [He _]]; [lia|].
    rewrite He. cbn [bind]. unfold Packet.incr_first.
    destruct (Z.leb_spec (b + 1) 255) as [Hs|Hs]; cbn [bind]; [|reflexivity].
    rewrite (IH (skipn 16 p) (b + 1) t); auto; try lia; rewrite length_skipn; lia.
Qed.

(** [crypt_payload] with a 16-byte key and a nonce of at most 15 bytes
    succeeds, preserving the length, on payloads of at most 4080 bytes
    (255 blocks) and raises [ValueError] on longer ones, when the block
    counter [base[0]] would pass 255. *)
Theorem crypt_payload_limit key nonce p :
  length key = 16%nat -> (length nonce <= 15)%nat ->
  ((length p <= 4080)%nat ->
   exists r, Packet.crypt_payload key nonce p = Ok r /\ length r = length p)
  /\ ((4080 < length p)%nat -> Packet.crypt_payload key nonce p = Raise ValueError).
Proof.
  intros Hk Hn. split.
  - intros Hp. destruct (crypt_payload_roundtrip key nonce p Hk Hn Hp) as [r [Hr [Hl _]]].
    exists r. auto.
  - intros Hp. unfold Packet.crypt_payload.
    destruct (crypt_base_shape nonce Hn) as [t [-> Ht]].
    apply (crypt_loop_overflow key (length p)); auto; lia.
Qed.

(** [make_checksum] with a 16-byte key and a nonce of at most 15 bytes
    gives a 16-byte checksum for payloads of at most 255 bytes, and
    raises [ValueError] from [bytearray([len(payload)])] on longer ones. *)
Theorem make_checksum_limit key nonce payload :
  length key = 16%nat -> (length nonce <= 15)%nat ->
  ((length payload <= 255)%nat ->
   exists c, Packet.make_checksum key nonce payload = Ok c /\ length c = 16%nat)
  /\ ((256 <= length payload)%nat -> Packet.make_checksum key nonce payload = Raise ValueError).
Proof.
  intros Hk Hn. split.
  - intros Hp. apply make_checksum_ok; assumption.
  - apply make_checksum_long.
Qed.

Lemma xor_bytes_comm x y : xor_bytes x y = xor_bytes y x.
Proof.
  revert y; induction x as [|a x IH]; intros [|b y]; cbn [xor_bytes]; try reflexivity.
  rewrite Z.lxor_comm, IH. reflexivity.
Qed.

(** The mesh name and password enter the pairing message and the session
    key only through their XOR: swapping them changes neither. *)
Theorem session_name_password_swap n p sr rr :
  Packet.make_pair_packet n p sr = Packet.make_pair_packet p n sr
  /\ Packet.make_session_key n p sr rr = Packet.make_session_key p n sr rr.
Proof.
  unfold Packet.make_pair_packet, Packet.make_session_key. cbv zeta.
  rewrite (xor_bytes_comm (ljust 16 n)). split; reflexivity.
Qed.

Lemma hex_char_digit d :
  0 <= d < 16 ->
  Packet.hex_digit (hex_char d) = Some d /\ Packet.is_space (hex_char d) = false
  /\ Ascii.eqb (hex_char d) ":"%char = false.
Proof.
  intros Hd.
  assert (d = 0 \/ d = 1 \/ d = 2 \/ d = 3 \/ d = 4 \/ d = 5 \/ d = 6 \/ d = 7 \/ d = 8
          \/ d = 9 \/ d = 10 \/ d = 11 \/ d = 12 \/ d = 13 \/ d = 14 \/ d = 15) by lia.
  repeat (destruct H as [->|H]; [vm_compute; auto|]). subst d. vm_compute. auto.
Qed.

(** [bytearray.fromhex(address.replace(":", ""))], as [make_command_packet]
    and [decrypt_packet] read the light's MAC, gives back the bytes of a
    MAC written as upper-case hex pairs separated by colons. *)
Theorem fromhex_mac_string (bs : bytes) :
  Forall (fun b => 0 <= b <= 255) bs ->
  Packet.fromhex (Packet.remove_colons (mac_string bs)) = Ok bs.
Proof.
  induction 1 as [|b bs Hb Hbs IH]; [reflexivity|].
  destruct (hex_char_digit (b / 16)) as [H1 [S1 C1]]; [split; [apply Z.div_pos | apply Z.div_lt_upper_bound]; lia|].
  destruct (hex_char_digit (b mod 16)) as [H2 [S2 C2]]; [apply Z.mod_pos_bound; lia|].
  assert (Hb' : 16 * (b / 16) + b mod 16 = b) by (symmetry; apply Z.div_mod; lia).
  destruct bs as [|b' bs'].
  - cbn [mac_string Packet.remove_colons]. rewrite C1, C2.
    cbn [Packet.fromhex]. rewrite S1, H1, H2. cbn [bind]. rewrite Hb'. reflexivity.
  - change (mac_string (b :: b' :: bs'))
      with (String (hex_char (b / 16)) (String (hex_char (b mod 16))
              (String ":" (mac_string (b' :: bs'))))).
    cbn [Packet.remove_colons]. rewrite C1, C2. cbn [Ascii.eqb Bool.eqb andb].
    cbn [Packet.fromhex]. rewrite S1, H1, H2, IH. cbn [bind]. rewrite Hb'. reflexivity.
Qed.

(** ** Command queue worker *)

Lemma worker_retry_stops env allow k : forall n r,
  (k <= r)%nat ->
  (forall m, (n <= m < n + k)%nat -> exists d, Worker.call_command allow (env m) = Ok (false, d)) ->
  (exists d, Worker.call_command allow (env (n + k)%nat) = Ok (true, d))
  \/ (exists e, Worker.call_command allow (env (n + k)%nat) = Raise e) ->
  Worker.attempts (fst (Worker.retry_loop env allow n r)) = S k
  /\ snd (Worker.retry_loop env allow n r)
     = match Worker.call_command allow (env (n + k)%nat) with Raise e => Some e | Ok _ => None end.
Proof.
  induction k as [|k IH]; intros n r Hkr Hprev Hstop.
  - rewrite Nat.add_0_r in *. destruct r; cbn [Worker.retry_loop];
      (destruct Hstop as [[d Hd]|[e He]]; [rewrite Hd | rewrite He]);
      try destruct d; split; reflexivity.
  - destruct r as [|r]; [lia|]. cbn [Worker.retry_loop].
    destruct (Hprev n) as [d Hd]; [lia|]. rewrite Hd.
    destruct (IH (S n) r) as [A B]; [lia | intros m Hm; apply Hprev; lia
                                    | replace (S n + k)%nat with (n + S k)%nat by lia; exact Hstop |].
    replace (S n + k)%nat with (n + S k)%nat in B by lia.
    destruct (Worker.retry_loop env allow (S n) r) as [ev' e']. cbn [fst snd] in *.
    split; [|exact B]. rewrite attempts_app, A. destruct d; reflexivity.
Qed.

(** The worker retries a command only while [_call_command] returns
    False: when the first [k] runs (at most 3) return False and the next
    returns True or raises, it makes exactly [k + 1] runs; the command's
    callback is then called once, as the last step, and after an
    exception it is preceded by the disconnection. *)
Theorem process_command_stops_early env allow k :
  (k <= 3)%nat ->
  (forall m, (m < k)%nat -> exists d, Worker.call_command allow (env m) = Ok (false, d)) ->
  (exists d, Worker.call_command allow (env k) = Ok (true, d))
  \/ (exists e, Worker.call_command allow (env k) = Raise e) ->
  Worker.attempts (Worker.process_command env allow) = S k
  /\ exists ev, Worker.process_command env allow = ev ++ [Worker.CompletionCallback]
       /\ existsb Worker.is_completion ev = false
       /\ ((exists e, Worker.call_command allow (env k) = Raise e) ->
           exists ev', ev = ev' ++ [Worker.Disconnect]).
Proof.
  intros Hk Hprev Hstop.
  destruct (worker_retry_stops env allow k 0 3) as [A B];
    [lia | intros m Hm; apply Hprev; lia | exact Hstop |].
  pose proof (retry_no_completion env allow 0 3) as C.
  unfold Worker.process_command.
  destruct (Worker.retry_loop env allow 0 3) as [ev e]. cbn [fst snd] in *.
  split.
  - rewrite !attempts_app, A. destruct e; cbn; lia.
  - exists (ev ++ match e with Some _ => [Worker.Disconnect] | None => [] end).
    split; [rewrite <- app_assoc; reflexivity|].
    split; [rewrite existsb_app, C; destruct e; reflexivity|].
    intros [e0 He0]. cbn [Nat.add] in B. rewrite He0 in B. subst e. eexists; reflexivity.
Qed.

(** ** Witnesses *)

Lemma send_firmware_packets_witness :
  let '(ps, r) := Firmware.send_firmware (Some test_key) test_firmware in
  r = Ok tt
  /\ (16 * (length ps - 1) < length test_firmware + 16)%nat
  /\ (length test_firmware <= 16 * (length ps - 1))%nat
  /\ forall i, (i < length ps)%nat ->
       Packet.crc16 (nth i ps []) = 0
       /\ firstn 2 (nth i ps []) = [Z.of_nat i mod 256; Z.of_nat i / 256]
       /\ length (nth i ps []) = (if (i <? length ps - 1)%nat then 20 else 4)%nat.
Proof.
  apply send_firmware_packets; [discriminate | discriminate | vm_compute; discriminate].
Defined.

Lemma send_firmware_recover_witness :
  firstn (length test_firmware)
    (concat (map (slice 2 18)
       (removelast (fst (Firmware.send_firmware (Some test_key) test_firmware)))))
  = test_firmware.
Proof.
  apply send_firmware_recover; [discriminate | discriminate | vm_compute; discriminate].
Defined.

Lemma send_firmware_overflow_witness :
  exists ps, Firmware.send_firmware (Some test_key) big_firmware = (ps, Raise StructError)
             /\ Z.of_nat (length ps) = 65536.
Proof.
  apply send_firmware_overflow; [discriminate | vm_compute; reflexivity].
Defined.

Lemma write_command_packet_witness :
  exists p, snd (fst (Command.write_command test_light 226 [4; 1; 2; 3] None [9; 9; 9]
                        (Command.WriteReturned None))) = [p]
            /\ firstn 3 p = [9; 9; 9]
            /\ length p = (5 + Nat.max 15 (5 + length [4; 1; 2; 3]))%nat
            /\ Packet.crypt_payload test_key (command_nonce test_mac_bytes [9; 9; 9]) (skipn 5 p)
               = Ok (command_payload (command_target test_light None) 226 [4; 1; 2; 3]).
Proof.
  apply write_command_packet;
    [reflexivity | reflexivity | vm_compute; reflexivity | vm_compute; split; discriminate
    | lia | simpl; lia | reflexivity].
Defined.

Lemma set_color_packet_witness :
  ((0 <= 1 <= 255 /\ 0 <= 2 <= 255 /\ 0 <= 3 <= 255) ->
   exists p, snd (fst (Command.set_color test_light 1 2 3 None [9; 9; 9]
                         (Command.WriteReturned None))) = [p]
             /\ Packet.crypt_payload test_key (command_nonce test_mac_bytes [9; 9; 9]) (skipn 5 p)
                = Ok (command_payload (command_target test_light None) 226 [4; 1; 2; 3]))
  /\ (~ (0 <= 1 <= 255 /\ 0 <= 2 <= 255 /\ 0 <= 3 <= 255) ->
      Command.set_color test_light 1 2 3 None [9; 9; 9] (Command.WriteReturned None)
      = (test_light, [], inr (Command.PyError StructError))).
Proof.
  apply set_color_packet;
    [reflexivity | reflexivity | vm_compute; reflexivity | vm_compute; split; discriminate
    | reflexivity].
Defined.

Lemma set_white_helper_not_started_witness :
  Command.set_white test_light 50 100 None [9; 9; 9] [7; 7; 7]
    (Command.WriteRaised (Command.BTLEInternalError true)) (Command.WriteReturned None)
  = (Light.set_session_key None test_light, [test_white_packet],
     inr (Command.PyError AssertionError)).
Proof.
  apply (set_white_helper_not_started test_light 50 100 None [9; 9; 9] [7; 7; 7]
           (Command.WriteReturned None) test_key test_white_packet);
    [reflexivity | lia | lia | vm_compute; reflexivity].
Defined.

Lemma set_mesh_messages_witness :
  exists m1 m2 m3,
    Packet.encrypt test_key [1; 2] = Ok m1 /\ length m1 = 16%nat
    /\ Packet.encrypt test_key [3] = Ok m2 /\ length m2 = 16%nat
    /\ Packet.encrypt test_key [] = Ok m3 /\ length m3 = 16%nat
    /\ Command.set_mesh test_light [1; 2] [3] [] (7 :: [])
       = Ok (if 7 =? 7 then Command.set_mesh_credentials [1; 2] [3] test_light else test_light,
             [4 :: m1; 5 :: m2; 6 :: m3], 7 =? 7)
    /\ Command.set_mesh test_light [1; 2] [3] [] [] = Raise IndexError.
Proof.
  apply set_mesh_messages; [reflexivity | reflexivity | simpl; lia | simpl; lia | simpl; lia].
Defined.

Lemma scan_completed_witness :
  Scan.async_get_devices_rssi 100 (Some test_found) test_scan_state
  = ({| Scan.sc_devices := map (rescored test_found) (Scan.sc_devices test_scan_state);
        Scan.scanning_devices := false; Scan.last_rssi_check := Some 100;
        Scan.sc_connected := None; Scan.sc_connected_device := None |}, false).
Proof. apply scan_completed; reflexivity. Defined.

Lemma scan_then_candidates_witness :
  In (1, Scan.with_rssi (-50) (test_device "kitchen"%string 1 (-40)))
     (Mesh.get_connectable_devices
        (Scan.sc_devices (fst (Scan.async_get_devices_rssi 100 (Some test_found) test_scan_state))))
  <-> exists i0 m r, In (1, i0) (Scan.sc_devices test_scan_state) /\ Mesh.dmac i0 = Some m
        /\ Scan.scan_get (Scan.upper m) test_found = Some (Some r) /\ -9999 < r
        /\ Scan.with_rssi (-50) (test_device "kitchen"%string 1 (-40)) = Scan.with_rssi r i0.
Proof. apply scan_then_candidates; reflexivity. Defined.

Lemma crypt_payload_limit_witness :
  ((length ([1; 2; 3]%Z : bytes) <= 4080)%nat ->
   exists r, Packet.crypt_payload test_key [1; 2] [1; 2; 3] = Ok r /\ length r = length ([1; 2; 3]%Z : bytes))
  /\ ((4080 < length ([1; 2; 3]%Z : bytes))%nat ->
      Packet.crypt_payload test_key [1; 2] [1; 2; 3] = Raise ValueError).
Proof. apply crypt_payload_limit; [reflexivity | simpl; lia]. Defined.

Lemma make_checksum_limit_witness :
  ((length ([1; 2; 3]%Z : bytes) <= 255)%nat ->
   exists c, Packet.make_checksum test_key [1; 2] [1; 2; 3] = Ok c /\ length c = 16%nat)
  /\ ((256 <= length ([1; 2; 3]%Z : bytes))%nat ->
      Packet.make_checksum test_key [1; 2] [1; 2; 3] = Raise ValueError).
Proof. apply make_checksum_limit; [reflexivity | simpl; lia]. Defined.

Lemma fromhex_mac_string_witness :
  Packet.fromhex (Packet.remove_colons (mac_string test_mac_bytes)) = Ok test_mac_bytes.
Proof. apply fromhex_mac_string. unfold test_mac_bytes. repeat constructor; lia. Defined.

Lemma process_command_stops_early_witness :
  Worker.attempts (Worker.process_command connected_no_reply true) = 1%nat
  /\ exists ev, Worker.process_command connected_no_reply true = ev ++ [Worker.CompletionCallback]
       /\ existsb Worker.is_completion ev = false
       /\ ((exists e, Worker.call_command true (connected_no_reply 0) = Raise e) ->
           exists ev', ev = ev' ++ [Worker.Disconnect]).
Proof.
  apply (process_command_stops_early connected_no_reply true 0);
    [lia | intros m Hm; lia | left; eexists; reflexivity].
Defined.
